(** * Unified Entity Cards: a shallow embedding of the Rust core

    The crate works on [serde_json::Value] trees.  This development embeds
    the value model, the validator ([validators.rs]), the v1 -> v2 converter
    ([convert.rs]) and the tools ([tools.rs]: normalisation, downgrade,
    merge, asset rewriting and lint), and proves properties of them. *)

From Stdlib Require Import String Ascii List Bool ZArith Lia Sorting.Sorted.
Import ListNotations.
Open Scope string_scope.
Open Scope list_scope.
Set Warnings "-register-all,-abstract-large-number".

(** String concatenation ([format!] with literal pieces). *)
Infix "+++" := String.append (at level 60, right associativity).

(** ** The value model ([serde_json::Value]) *)

(** [serde_json::Number]: a non-negative integer ([PosInt], a [u64]), a
    negative integer ([NegInt], an [i64]) or a finite float ([Float]).  A
    float is kept as an opaque code: two codes are equal exactly when the
    floats compare equal. *)
Inductive Num : Type :=
| PosInt (n : N)
| NegInt (z : Z)
| Float (f : Z).

(** The six JSON shapes.  [serde_json::Map] is, with the crate's default
    features, a [BTreeMap<String, Value>]: an association list whose keys
    are strictly increasing ([wf_value] below). *)
Inductive Value : Type :=
| Null
| Bool (b : bool)
| Number (n : Num)
| Str (s : string)
| Array (items : list Value)
| Object (map : list (string * Value)).

Definition Map := list (string * Value).

(** A nested induction principle for [Value]. *)
Section ValueInd.
Variable P : Value -> Prop.
Hypothesis HNull : P Null.
Hypothesis HBool : forall b, P (Bool b).
Hypothesis HNumber : forall n, P (Number n).
Hypothesis HStr : forall s, P (Str s).
Hypothesis HArray : forall l, Forall P l -> P (Array l).
Hypothesis HObject : forall m, Forall (fun kv => P (snd kv)) m -> P (Object m).

Fixpoint value_ind' (v : Value) : P v :=
  match v with
  | Null => HNull
  | Bool b => HBool b
  | Number n => HNumber n
  | Str s => HStr s
  | Array l =>
      HArray l
        ((fix go (l : list Value) : Forall P l :=
            match l with
            | [] => Forall_nil _
            | x :: r => Forall_cons _ (value_ind' x) (go r)
            end) l)
  | Object m =>
      HObject m
        ((fix go (m : list (string * Value)) : Forall (fun kv => P (snd kv)) m :=
            match m with
            | [] => Forall_nil _
            | kv :: r => Forall_cons _ (value_ind' (snd kv)) (go r)
            end) m)
  end.
End ValueInd.

(** *** Equality ([PartialEq for Value]) *)

Definition num_eqb (a b : Num) : bool :=
  match a, b with
  | PosInt x, PosInt y => N.eqb x y
  | NegInt x, NegInt y => Z.eqb x y
  | Float x, Float y => Z.eqb x y
  | _, _ => false
  end.

Fixpoint value_eqb (a b : Value) : bool :=
  match a, b with
  | Null, Null => true
  | Bool x, Bool y => Bool.eqb x y
  | Number x, Number y => num_eqb x y
  | Str x, Str y => String.eqb x y
  | Array xs, Array ys =>
      (fix go (xs ys : list Value) : bool :=
         match xs, ys with
         | [], [] => true
         | x :: xs', y :: ys' => value_eqb x y && go xs' ys'
         | _, _ => false
         end) xs ys
  | Object xs, Object ys =>
      (fix go (xs ys : list (string * Value)) : bool :=
         match xs, ys with
         | [], [] => true
         | (k, x) :: xs', (k', y) :: ys' =>
             String.eqb k k' && value_eqb x y && go xs' ys'
         | _, _ => false
         end) xs ys
  | _, _ => false
  end.

(** *** Map operations ([BTreeMap] semantics on a sorted association list) *)

(** [map.get(key)] *)
Fixpoint map_get (k : string) (m : Map) : option Value :=
  match m with
  | [] => None
  | (k', v) :: r => if String.eqb k k' then Some v else map_get k r
  end.

(** [map.get(key)] handed straight to [f]; used where the Rust code recurses
    into the value it has just looked up. *)
Fixpoint map_get_with {B : Type} (f : Value -> B) (k : string) (m : Map) : option B :=
  match m with
  | [] => None
  | (k', v) :: r => if String.eqb k k' then Some (f v) else map_get_with f k r
  end.

Definition map_contains_key (k : string) (m : Map) : bool :=
  match map_get k m with Some _ => true | None => false end.

(** [map.insert(key, value)]: replaces an existing entry, otherwise inserts
    at the key's place in the order. *)
Fixpoint map_insert (k : string) (v : Value) (m : Map) : Map :=
  match m with
  | [] => [(k, v)]
  | (k', v') :: r =>
      match String.compare k k' with
      | Eq => (k, v) :: r
      | Lt => (k, v) :: (k', v') :: r
      | Gt => (k', v') :: map_insert k v r
      end
  end.

(** [map.remove(key)] *)
Fixpoint map_remove (k : string) (m : Map) : Map :=
  match m with
  | [] => []
  | (k', v') :: r => if String.eqb k k' then r else (k', v') :: map_remove k r
  end.

(** [BTreeSet<String>]: a strictly increasing list of strings. *)
Fixpoint set_insert (k : string) (s : list string) : list string :=
  match s with
  | [] => [k]
  | k' :: r =>
      match String.compare k k' with
      | Eq => k' :: r
      | Lt => k :: k' :: r
      | Gt => k' :: set_insert k r
      end
  end.

Definition set_extend (s : list string) (ks : list string) : list string :=
  fold_left (fun acc k => set_insert k acc) ks s.

(** The representation invariant of a [BTreeMap]: keys strictly increasing,
    at every level of the tree. *)
Definition key_lt (a b : string * Value) : Prop := String.compare (fst a) (fst b) = Lt.

Fixpoint wf_value (v : Value) : Prop :=
  match v with
  | Array items => (fix go (l : list Value) : Prop :=
                      match l with [] => True | x :: r => wf_value x /\ go r end) items
  | Object m => StronglySorted key_lt m /\
      (fix go (m : Map) : Prop :=
         match m with [] => True | (_, x) :: r => wf_value x /\ go r end) m
  | _ => True
  end.

(** *** Accessors ([Value::get], [as_str], [as_i64], ...) *)

(** [value.get(key)]: [None] on anything but an object. *)
Definition get (k : string) (v : Value) : option Value :=
  match v with Object m => map_get k m | _ => None end.

Definition as_str (v : Value) : option string :=
  match v with Str s => Some s | _ => None end.

Definition as_object (v : Value) : option Map :=
  match v with Object m => Some m | _ => None end.

Definition as_array (v : Value) : option (list Value) :=
  match v with Array l => Some l | _ => None end.

Definition i64_max : Z := 9223372036854775807.

(** [Number::as_i64] *)
Definition num_as_i64 (n : Num) : option Z :=
  match n with
  | PosInt k => if (Z.of_N k <=? i64_max)%Z then Some (Z.of_N k) else None
  | NegInt z => Some z
  | Float _ => None
  end.

Definition as_i64 (v : Value) : option Z :=
  match v with Number n => num_as_i64 n | _ => None end.

Definition is_null (v : Value) : bool :=
  match v with Null => true | _ => false end.

Definition opt_bind {A B : Type} (o : option A) (f : A -> option B) : option B :=
  match o with Some a => f a | None => None end.

Definition is_some_and {A : Type} (o : option A) (p : A -> bool) : bool :=
  match o with Some a => p a | None => false end.

(** ** Predicates of [utils.rs] *)

Definition is_string (v : Value) : bool := match v with Str _ => true | _ => false end.

(** [is_number]: every [serde_json::Number] is an [f64], an [i64] or a [u64]. *)
Definition is_number (v : Value) : bool := match v with Number _ => true | _ => false end.

Definition is_boolean (v : Value) : bool := match v with Bool _ => true | _ => false end.

Definition is_object (v : Value) : bool := match v with Object _ => true | _ => false end.

Definition optional_string (o : option Value) : bool :=
  match o with None | Some Null | Some (Str _) => true | _ => false end.

Definition optional_number (o : option Value) : bool :=
  match o with None => true | Some v => is_number v end.

Definition optional_boolean (o : option Value) : bool :=
  match o with None => true | Some v => is_boolean v end.

Definition optional_object (o : option Value) : bool :=
  match o with None => true | Some v => is_object v end.

Definition optional_string_array (o : option Value) : bool :=
  match o with
  | None => true
  | Some (Array items) => forallb is_string items
  | Some _ => false
  end.

(** [crate::constants] *)
Definition SCHEMA_NAME : string := "UEC".
Definition SCHEMA_VERSION : string := "1.0".
Definition SCHEMA_VERSION_V2 : string := "2.0".

Definition known_version (version : string) : bool :=
  String.eqb version SCHEMA_VERSION || String.eqb version SCHEMA_VERSION_V2.

(** The double quote character (ASCII 34) of the Rust format strings. *)
Definition dq : string := String (ascii_of_nat 34) EmptyString.

(** Decimal rendering of an index, as [format!("{}", index)]. *)
Fixpoint string_of_uint (d : Decimal.uint) : string :=
  match d with
  | Decimal.Nil => EmptyString
  | Decimal.D0 r => String "0" (string_of_uint r)
  | Decimal.D1 r => String "1" (string_of_uint r)
  | Decimal.D2 r => String "2" (string_of_uint r)
  | Decimal.D3 r => String "3" (string_of_uint r)
  | Decimal.D4 r => String "4" (string_of_uint r)
  | Decimal.D5 r => String "5" (string_of_uint r)
  | Decimal.D6 r => String "6" (string_of_uint r)
  | Decimal.D7 r => String "7" (string_of_uint r)
  | Decimal.D8 r => String "8" (string_of_uint r)
  | Decimal.D9 r => String "9" (string_of_uint r)
  end.

Definition nat_to_string (n : nat) : string := string_of_uint (Nat.to_uint n).

(** [format!("{}[{}]", path, index)] *)
Definition index_path (path : string) (i : nat) : string :=
  path +++ "[" +++ nat_to_string i +++ "]".

(** The validators push onto a [&mut Vec<String>] and never remove from it:
    each one is embedded as the list of messages it pushes, in order, and a
    sequence of calls as the concatenation of those lists. *)
Definition push_error (path message : string) : list string := [path +++ ": " +++ message].

(** [if !cond { push_error(errors, path, message) }] *)
Definition unless (cond : bool) (path message : string) : list string :=
  if cond then [] else push_error path message.

(** [for (index, item) in items.iter().enumerate() { f(index, item) }] *)
Fixpoint for_each_indexed (f : nat -> Value -> list string) (i : nat) (items : list Value)
  : list string :=
  match items with
  | [] => []
  | x :: r => f i x ++ for_each_indexed f (S i) r
  end.

Definition string_array (v : Value) : bool :=
  match v with Array items => forallb is_string items | _ => false end.

(** ** The validator ([validators.rs]) *)

Definition is_valid_locator_type (t : string) : bool :=
  String.eqb t "inline_base64" || String.eqb t "remote_url" || String.eqb t "asset_ref".

Definition validate_asset_locator (value : option Value) (path : string) : list string :=
  match value with
  | None => []
  | Some Null | Some (Str _) => []
  | Some (Object map) =>
      let value_type := opt_bind (map_get "type" map) as_str in
      if negb (is_some_and value_type is_valid_locator_type) then
        push_error (path +++ ".type") "must be one of: inline_base64, remote_url, asset_ref"
      else
        unless (optional_string (map_get "mimeType" map)) (path +++ ".mimeType")
          "must be a string if provided"
        ++ (let t := match value_type with Some t => t | None => EmptyString end in
            if String.eqb t "inline_base64" then
              unless (is_some_and (map_get "data" map) is_string) (path +++ ".data")
                "is required for inline_base64"
            else if String.eqb t "remote_url" then
              unless (is_some_and (map_get "url" map) is_string) (path +++ ".url")
                "is required for remote_url"
            else if String.eqb t "asset_ref" then
              unless (is_some_and (map_get "assetId" map) is_string) (path +++ ".assetId")
                "is required for asset_ref"
            else [])
  | Some _ => push_error path "must be a string, object, or null"
  end.

Definition validate_book_entry (index : nat) (entry : Value) : list string :=
  let entry_path := index_path "payload.characterBook.entries" index in
  match entry with
  | Object entry_map =>
      unless (optional_string (map_get "name" entry_map)) (entry_path +++ ".name")
        "must be a string or null"
      ++ (match map_get "keys" entry_map with
          | Some keys => unless (string_array keys) (entry_path +++ ".keys")
                           "must be an array of strings"
          | None => []
          end)
      ++ (match map_get "secondary_keys" entry_map with
          | Some keys => unless (string_array keys) (entry_path +++ ".secondary_keys")
                           "must be an array of strings"
          | None => []
          end)
      ++ unless (is_some_and (map_get "content" entry_map) is_string)
           (entry_path +++ ".content") "must be a string"
      ++ unless (optional_boolean (map_get "enabled" entry_map))
           (entry_path +++ ".enabled") "must be a boolean"
      ++ unless (optional_number (map_get "insertion_order" entry_map))
           (entry_path +++ ".insertion_order") "must be a number"
      ++ unless (optional_boolean (map_get "case_sensitive" entry_map))
           (entry_path +++ ".case_sensitive") "must be a boolean"
      ++ unless (optional_number (map_get "priority" entry_map))
           (entry_path +++ ".priority") "must be a number"
      ++ unless (optional_boolean (map_get "constant" entry_map))
           (entry_path +++ ".constant") "must be a boolean"
  | _ => push_error entry_path "must be an object"
  end.

Definition validate_character_book (book : option Value) : list string :=
  match book with
  | None | Some Null => []
  | Some (Object book_map) =>
      unless (optional_string (map_get "name" book_map)) "payload.characterBook.name"
        "must be a string or null"
      ++ unless (optional_string (map_get "description" book_map))
           "payload.characterBook.description" "must be a string or null"
      ++ (match map_get "entries" book_map with
          | None => []
          | Some (Array entries) => for_each_indexed validate_book_entry 0 entries
          | Some _ => push_error "payload.characterBook.entries" "must be an array"
          end)
  | Some _ => push_error "payload.characterBook" "must be an object"
  end.

Definition validate_variant (variant : Value) (path : string) : list string :=
  match variant with
  | Object map =>
      unless (is_some_and (map_get "id" map) is_string) (path +++ ".id") "must be a string"
      ++ unless (is_some_and (map_get "content" map) is_string) (path +++ ".content")
           "must be a string"
      ++ unless (is_some_and (map_get "createdAt" map) is_number) (path +++ ".createdAt")
           "must be a number"
  | _ => push_error path "must be an object"
  end.

(** Returns the pushed messages and the [bool] the Rust function returns. *)
Definition validate_scene_base (scene : Value) (path : string) (strict : bool)
  : list string * bool :=
  match scene with
  | Object map =>
      (unless (is_some_and (map_get "id" map) is_string) (path +++ ".id") "must be a string"
       ++ unless (is_some_and (map_get "content" map) is_string) (path +++ ".content")
            "must be a string"
       ++ unless (optional_string (map_get "direction" map)) (path +++ ".direction")
            "must be a string"
       ++ unless (optional_number (map_get "createdAt" map)) (path +++ ".createdAt")
            "must be a number"
       ++ (match map_get "variants" map with
           | Some (Array items) =>
               for_each_indexed
                 (fun index variant =>
                    validate_variant variant (index_path (path +++ ".variants") index)) 0 items
           | Some _ => push_error (path +++ ".variants") "must be an array"
           | None => []
           end)
       ++ (if strict then
             unless (is_some_and (map_get "id" map) is_string) (path +++ ".id") "is required"
             ++ unless (is_some_and (map_get "content" map) is_string) (path +++ ".content")
                  "is required"
           else []),
       true)
  | _ => (push_error path "must be an object", false)
  end.

Definition validate_scene (scene : Value) (path : string) (strict : bool) : list string :=
  let (errs, proceed) := validate_scene_base scene path strict in
  if proceed then
    errs ++ match scene with
            | Object map =>
                match map_get "selectedVariantId" map with
                | Some (Str _) | Some Null | None => []
                | Some _ => push_error (path +++ ".selectedVariantId") "must be a string or null"
                end
            | _ => []
            end
  else errs.

Definition is_zero_number (v : Value) : bool :=
  match v with
  | Number n => match num_as_i64 n with Some z => Z.eqb z 0 | None => false end
  | _ => false
  end.

Definition validate_scene_v2 (scene : Value) (path : string) (strict : bool) : list string :=
  let (errs, proceed) := validate_scene_base scene path strict in
  if proceed then
    errs ++ match scene with
            | Object map =>
                match map_get "selectedVariant" map with
                | Some selected =>
                    unless (is_zero_number selected || is_string selected)
                      (path +++ ".selectedVariant") "must be 0 or a variant ID string"
                | None => []
                end
            | _ => []
            end
  else errs.

Definition validate_voice_config_v1 (voice_config : option Value) : list string :=
  match voice_config with
  | None => []
  | Some (Object map) =>
      unless (is_some_and (map_get "source" map) is_string) "payload.voiceConfig.source"
        "must be a string"
      ++ unless (is_some_and (map_get "providerId" map) is_string)
           "payload.voiceConfig.providerId" "must be a string"
      ++ unless (is_some_and (map_get "voiceId" map) is_string)
           "payload.voiceConfig.voiceId" "must be a string"
  | Some _ => push_error "payload.voiceConfig" "must be an object"
  end.

Definition validate_voice_config_v2 (voice_config : option Value) : list string :=
  match voice_config with
  | None => []
  | Some (Object map) =>
      unless (is_some_and (map_get "source" map) is_string) "payload.voiceConfig.source"
        "must be a string"
      ++ unless (optional_string (map_get "providerId" map))
           "payload.voiceConfig.providerId" "must be a string if provided"
      ++ unless (optional_string (map_get "voiceId" map))
           "payload.voiceConfig.voiceId" "must be a string if provided"
      ++ unless (optional_string (map_get "userVoiceId" map))
           "payload.voiceConfig.userVoiceId" "must be a string if provided"
      ++ unless (optional_string (map_get "modelId" map))
           "payload.voiceConfig.modelId" "must be a string if provided"
      ++ unless (optional_string (map_get "voiceName" map))
           "payload.voiceConfig.voiceName" "must be a string if provided"
  | Some _ => push_error "payload.voiceConfig" "must be an object"
  end.

(** Returns the pushed messages and the version string it reads. *)
Definition validate_schema (schema : option Value) : list string * option string :=
  match schema with
  | Some (Object map) =>
      let name := map_get "name" map in
      let version := map_get "version" map in
      ((if negb (is_some_and name is_string) then push_error "schema.name" "must be a string"
        else if negb (match opt_bind name as_str with
                      | Some n => String.eqb n SCHEMA_NAME | None => false end)
        then push_error "schema.name" ("must be " +++ dq +++ "UEC" +++ dq)
        else [])
       ++ (if negb (is_some_and version is_string) then
             push_error "schema.version" "must be a string"
           else
             let v := match opt_bind version as_str with Some v => v | None => EmptyString end in
             if negb (known_version v) then
               push_error "schema.version" ("unknown version " +++ dq +++ v +++ dq)
             else [])
       ++ (match map_get "compat" map with
           | Some compat => unless (is_string compat) "schema.compat"
                              "must be a string if provided"
           | None => []
           end),
       opt_bind version as_str)
  | _ => (push_error "schema" "must be an object", None)
  end.

Definition validate_app_specific_settings (settings : option Value) : list string :=
  match settings with
  | None => []
  | Some s => unless (is_object s) "app_specific_settings" "must be an object"
  end.

Definition validate_meta (meta : option Value) : list string :=
  match meta with
  | None => []
  | Some (Object map) =>
      unless (optional_number (map_get "createdAt" map)) "meta.createdAt" "must be a number"
      ++ unless (optional_number (map_get "updatedAt" map)) "meta.updatedAt"
           "must be a number"
      ++ unless (optional_string (map_get "source" map)) "meta.source" "must be a string"
      ++ (match map_get "authors" map with
          | Some (Array items) =>
              unless (forallb is_string items) "meta.authors" "must be an array of strings"
          | Some _ => push_error "meta.authors" "must be an array of strings"
          | None => []
          end)
      ++ unless (optional_string (map_get "license" map)) "meta.license" "must be a string"
  | Some _ => push_error "meta" "must be an object"
  end.

Definition validate_meta_v2 (meta : option Value) (strict : bool) : list string :=
  validate_meta meta
  ++ if strict && negb (is_some_and meta is_object) then
       push_error "meta.originalCreatedAt" "is required in strict mode"
       ++ push_error "meta.originalUpdatedAt" "is required in strict mode"
     else
       match meta with
       | Some (Object map) =>
           unless (optional_number (map_get "originalCreatedAt" map))
             "meta.originalCreatedAt" "must be a number"
           ++ unless (optional_number (map_get "originalUpdatedAt" map))
                "meta.originalUpdatedAt" "must be a number"
           ++ unless (optional_string (map_get "originalSource" map))
                "meta.originalSource" "must be a string"
           ++ (if strict then
                 unless (is_some_and (map_get "originalCreatedAt" map) is_number)
                   "meta.originalCreatedAt" "is required in strict mode"
                 ++ unless (is_some_and (map_get "originalUpdatedAt" map) is_number)
                      "meta.originalUpdatedAt" "is required in strict mode"
               else [])
       | _ => []
       end.

Definition is_array (v : Value) : bool := match v with Array _ => true | _ => false end.

Definition validate_character_payload_v1 (payload : Value) (strict : bool) : list string :=
  match payload with
  | Object map =>
      unless (is_some_and (map_get "id" map) is_string) "payload.id" "must be a string"
      ++ unless (is_some_and (map_get "name" map) is_string) "payload.name" "must be a string"
      ++ unless (optional_string (map_get "description" map)) "payload.description"
           "must be a string"
      ++ unless (optional_string (map_get "definitions" map)) "payload.definitions"
           "must be a string"
      ++ unless (optional_string_array (map_get "tags" map)) "payload.tags"
           "must be an array of strings"
      ++ unless (optional_string (map_get "avatar" map)) "payload.avatar"
           "must be a string or null"
      ++ unless (optional_string (map_get "chatBackground" map)) "payload.chatBackground"
           "must be a string or null"
      ++ unless (optional_string_array (map_get "rules" map)) "payload.rules"
           "must be an array of strings"
      ++ (match map_get "scenes" map with
          | Some (Array scenes) =>
              for_each_indexed
                (fun index scene =>
                   validate_scene scene (index_path "payload.scenes" index) strict) 0 scenes
          | Some _ => push_error "payload.scenes" "must be an array"
          | None => []
          end)
      ++ unless (optional_string (map_get "defaultSceneId" map)) "payload.defaultSceneId"
           "must be a string or null"
      ++ unless (optional_string (map_get "defaultModelId" map)) "payload.defaultModelId"
           "must be a string or null"
      ++ unless (optional_string (map_get "systemPrompt" map)) "payload.systemPrompt"
           "must be a string or null"
      ++ validate_voice_config_v1 (map_get "voiceConfig" map)
      ++ unless (optional_boolean (map_get "voiceAutoplay" map)) "payload.voiceAutoplay"
           "must be a boolean"
      ++ unless (optional_number (map_get "createdAt" map)) "payload.createdAt"
           "must be a number"
      ++ unless (optional_number (map_get "updatedAt" map)) "payload.updatedAt"
           "must be a number"
      ++ (if strict then
            unless (is_some_and (map_get "description" map) is_string) "payload.description"
              "is required in strict mode"
            ++ unless (is_some_and (map_get "rules" map) is_array) "payload.rules"
                 "is required in strict mode"
            ++ unless (is_some_and (map_get "scenes" map) is_array) "payload.scenes"
                 "is required in strict mode"
            ++ unless (is_some_and (map_get "createdAt" map) is_number) "payload.createdAt"
                 "is required in strict mode"
            ++ unless (is_some_and (map_get "updatedAt" map) is_number) "payload.updatedAt"
                 "is required in strict mode"
          else [])
  | _ => push_error "payload" "must be an object"
  end.

Definition validate_persona_payload_v1 (payload : Value) (strict : bool) : list string :=
  match payload with
  | Object map =>
      unless (is_some_and (map_get "id" map) is_string) "payload.id" "must be a string"
      ++ unless (is_some_and (map_get "title" map) is_string) "payload.title"
           "must be a string"
      ++ unless (optional_string (map_get "description" map)) "payload.description"
           "must be a string"
      ++ unless (optional_string (map_get "avatar" map)) "payload.avatar"
           "must be a string or null"
      ++ unless (optional_boolean (map_get "isDefault" map)) "payload.isDefault"
           "must be a boolean"
      ++ unless (optional_number (map_get "createdAt" map)) "payload.createdAt"
           "must be a number"
      ++ unless (optional_number (map_get "updatedAt" map)) "payload.updatedAt"
           "must be a number"
      ++ (if strict then
            unless (is_some_and (map_get "description" map) is_string) "payload.description"
              "is required in strict mode"
            ++ unless (is_some_and (map_get "createdAt" map) is_number) "payload.createdAt"
                 "is required in strict mode"
            ++ unless (is_some_and (map_get "updatedAt" map) is_number) "payload.updatedAt"
                 "is required in strict mode"
          else [])
  | _ => push_error "payload" "must be an object"
  end.

Definition validate_character_payload_v2 (payload : Value) (strict : bool) : list string :=
  match payload with
  | Object map =>
      unless (is_some_and (map_get "id" map) is_string) "payload.id" "must be a string"
      ++ unless (is_some_and (map_get "name" map) is_string) "payload.name" "must be a string"
      ++ unless (optional_string (map_get "description" map)) "payload.description"
           "must be a string"
      ++ unless (optional_string (map_get "definitions" map)) "payload.definitions"
           "must be a string"
      ++ unless (optional_string_array (map_get "tags" map)) "payload.tags"
           "must be an array of strings"
      ++ validate_asset_locator (map_get "avatar" map) "payload.avatar"
      ++ validate_asset_locator (map_get "chatBackground" map) "payload.chatBackground"
      ++ (if strict && is_some_and (map_get "rules" map) (fun _ => true) then
            push_error "payload.rules"
              "is not a valid field in v2; use systemPrompt or characterBook instead"
          else [])
      ++ (match map_get "scene" map with
          | None | Some Null => []
          | Some scene => validate_scene_v2 scene "payload.scene" strict
          end)
      ++ unless (optional_string (map_get "defaultModelId" map)) "payload.defaultModelId"
           "must be a string or null"
      ++ unless (optional_string (map_get "fallbackModelId" map)) "payload.fallbackModelId"
           "must be a string or null"
      ++ unless (optional_string (map_get "systemPrompt" map)) "payload.systemPrompt"
           "must be a string or null"
      ++ unless (optional_string (map_get "promptTemplateId" map)) "payload.promptTemplateId"
           "must be a string or null"
      ++ unless (optional_string (map_get "nickname" map)) "payload.nickname"
           "must be a string or null"
      ++ unless (optional_string (map_get "creator" map)) "payload.creator"
           "must be a string or null"
      ++ unless (optional_string (map_get "creatorNotes" map)) "payload.creatorNotes"
           "must be a string or null"
      ++ unless (optional_object (map_get "creatorNotesMultilingual" map))
           "payload.creatorNotesMultilingual" "must be an object if provided"
      ++ (match map_get "source" map with
          | Some source => unless (string_array source) "payload.source"
                             "must be an array of strings"
          | None => []
          end)
      ++ validate_voice_config_v2 (map_get "voiceConfig" map)
      ++ unless (optional_boolean (map_get "voiceAutoplay" map)) "payload.voiceAutoplay"
           "must be a boolean"
      ++ validate_character_book (map_get "characterBook" map)
      ++ unless (optional_number (map_get "createdAt" map)) "payload.createdAt"
           "must be a number"
      ++ unless (optional_number (map_get "updatedAt" map)) "payload.updatedAt"
           "must be a number"
      ++ (if strict then
            unless (is_some_and (map_get "description" map) is_string) "payload.description"
              "is required in strict mode"
            ++ unless (is_some_and (map_get "scene" map) is_object) "payload.scene"
                 "is required in strict mode"
            ++ unless (is_some_and (map_get "createdAt" map) is_number) "payload.createdAt"
                 "is required in strict mode"
            ++ unless (is_some_and (map_get "updatedAt" map) is_number) "payload.updatedAt"
                 "is required in strict mode"
          else [])
  | _ => push_error "payload" "must be an object"
  end.

Definition validate_persona_payload_v2 (payload : Value) (strict : bool) : list string :=
  match payload with
  | Object map =>
      unless (is_some_and (map_get "id" map) is_string) "payload.id" "must be a string"
      ++ unless (is_some_and (map_get "title" map) is_string) "payload.title"
           "must be a string"
      ++ unless (optional_string (map_get "description" map)) "payload.description"
           "must be a string"
      ++ validate_asset_locator (map_get "avatar" map) "payload.avatar"
      ++ unless (optional_boolean (map_get "isDefault" map)) "payload.isDefault"
           "must be a boolean"
      ++ unless (optional_number (map_get "createdAt" map)) "payload.createdAt"
           "must be a number"
      ++ unless (optional_number (map_get "updatedAt" map)) "payload.updatedAt"
           "must be a number"
      ++ (if strict then
            unless (is_some_and (map_get "description" map) is_string) "payload.description"
              "is required in strict mode"
            ++ unless (is_some_and (map_get "createdAt" map) is_number) "payload.createdAt"
                 "is required in strict mode"
            ++ unless (is_some_and (map_get "updatedAt" map) is_number) "payload.updatedAt"
                 "is required in strict mode"
          else [])
  | _ => push_error "payload" "must be an object"
  end.

Record ValidationResult : Type := { ok : bool; errors : list string }.

Definition is_empty {A : Type} (l : list A) : bool := match l with [] => true | _ => false end.

Definition opt_str_eqb (o : option string) (s : string) : bool :=
  match o with Some x => String.eqb x s | None => false end.

(** The kind / version dispatch of [validate_uec] for an object payload. *)
Definition validate_payload (payload : Value) (kind : option Value) (version : option string)
  (strict : bool) : list string :=
  let is_v2 := opt_str_eqb version SCHEMA_VERSION_V2 in
  if is_some_and version known_version then
    match opt_bind kind as_str with
    | Some kind =>
        if String.eqb kind "character" then
          if is_v2 then validate_character_payload_v2 payload strict
          else validate_character_payload_v1 payload strict
        else if String.eqb kind "persona" then
          if is_v2 then validate_persona_payload_v2 payload strict
          else validate_persona_payload_v1 payload strict
        else []
    | None => []
    end
  else [].

Definition validate_kind (kind : option Value) : list string :=
  match kind with
  | Some (Str k) =>
      if String.eqb k "character" || String.eqb k "persona" then []
      else push_error "kind" ("must be " +++ dq +++ "character" +++ dq +++ " or " +++ dq
                              +++ "persona" +++ dq)
  | _ => push_error "kind" ("must be " +++ dq +++ "character" +++ dq +++ " or " +++ dq
                           +++ "persona" +++ dq)
  end.

Definition validate_extensions (extensions : option Value) : list string :=
  match extensions with
  | Some e => unless (is_object e) "extensions" "must be an object"
  | None => []
  end.

Definition validate_root (map : Map) (strict : bool) : list string :=
  let (schema_errors, version) := validate_schema (map_get "schema" map) in
  let is_v2 := opt_str_eqb version SCHEMA_VERSION_V2 in
  let known := is_some_and version known_version in
  schema_errors
  ++ validate_kind (map_get "kind" map)
  ++ (match map_get "payload" map with
      | Some payload =>
          if is_object payload then validate_payload payload (map_get "kind" map) version strict
          else push_error "payload" "must be an object"
      | None => push_error "payload" "must be an object"
      end)
  ++ validate_app_specific_settings (map_get "app_specific_settings" map)
  ++ (if is_v2 && known then validate_meta_v2 (map_get "meta" map) strict
      else validate_meta (map_get "meta" map))
  ++ validate_extensions (map_get "extensions" map).

Definition validate_uec (value : Value) (strict : bool) : ValidationResult :=
  match value with
  | Object map =>
      let errs := validate_root map strict in
      {| ok := is_empty errs; errors := errs |}
  | _ => {| ok := false; errors := push_error "root" "must be an object" |}
  end.

(** ** Normalisation ([utils.rs: normalize_value], [tools.rs: normalize_uec]) *)

(** Builds a [BTreeMap] by inserting the entries in iteration order. *)
Definition map_from_entries (entries : list (string * Value)) : Map :=
  fold_left (fun acc kv => map_insert (fst kv) (snd kv) acc) entries [].

Fixpoint normalize_value (value : Value) : Value :=
  match value with
  | Array items => Array (map normalize_value items)
  | Object m =>
      let sorted := map_from_entries (map (fun kv => (fst kv, normalize_value (snd kv))) m) in
      Object (map_from_entries sorted)
  | _ => value
  end.

(** [if !root.get(key).is_some_and(is_object) { root.insert(key, {}) }] *)
Definition default_object (key : string) (root : Map) : Map :=
  if is_some_and (map_get key root) is_object then root else map_insert key (Object []) root.

Definition normalize_uec (card : Value) : Value :=
  match normalize_value card with
  | Object root =>
      Object (default_object "extensions" (default_object "meta"
                (default_object "app_specific_settings" root)))
  | normalized => normalized
  end.

(** ** Conversion v1 -> v2 ([convert.rs]) *)

Inductive Result (A : Type) : Type :=
| Ok (a : A)
| Err (e : string).
Arguments Ok {A} a.
Arguments Err {A} e.

Fixpoint strip_prefix (prefix s : string) : option string :=
  match prefix, s with
  | EmptyString, _ => Some s
  | String p prefix', String c s' => if Ascii.eqb p c then strip_prefix prefix' s' else None
  | String _ _, EmptyString => None
  end.

Definition schema_version (card : Value) : option string :=
  opt_bind (opt_bind (get "schema" card) (get "version")) as_str.

(** The picked scene with [selectedVariantId] renamed to [selectedVariant]. *)
Definition v2_scene (scene : Map) : Map :=
  match map_get "selectedVariantId" scene with
  | Some selected =>
      let scene := map_remove "selectedVariantId" scene in
      if is_null selected then map_insert "selectedVariant" (Number (PosInt 0)) scene
      else map_insert "selectedVariant" selected scene
  | None => scene
  end.

Definition pick_scene (payload : Map) (scene_items : list Value) : option Value :=
  let default_id := opt_bind (map_get "defaultSceneId" payload) as_str in
  match opt_bind default_id
          (fun id => find (fun scene => opt_str_eqb (opt_bind (get "id" scene) as_str) id)
                          scene_items) with
  | Some scene => Some scene
  | None => hd_error scene_items
  end.

Definition convert_payload (payload : Map) : Map :=
  let payload := map_remove "rules" payload in
  let payload :=
    match map_get "scenes" payload with
    | Some scenes =>
        let payload :=
          match scenes with
          | Array scene_items =>
              if negb (is_empty scene_items) then
                match pick_scene payload scene_items with
                | Some (Object picked_scene) =>
                    map_insert "scene" (Object (v2_scene picked_scene)) payload
                | _ => payload
                end
              else payload
          | _ => payload
          end in
        map_remove "scenes" payload
    | None => payload
    end in
  let payload := map_remove "defaultSceneId" payload in
  match map_get "systemPrompt" payload with
  | Some (Str system_prompt) =>
      match strip_prefix "_ID:" system_prompt with
      | Some stripped =>
          map_insert "systemPrompt" Null (map_insert "promptTemplateId" (Str stripped) payload)
      | None => payload
      end
  | _ => payload
  end.

(** [if !meta.contains_key(target) && let Some(v) = meta.get(source).cloned()
    && check(&v) { meta.insert(target, v) }] *)
Definition copy_once (target source : string) (check : Value -> bool) (meta : Map) : Map :=
  if negb (map_contains_key target meta) then
    match map_get source meta with
    | Some v => if check v then map_insert target v meta else meta
    | None => meta
    end
  else meta.

Definition convert_meta (root : Map) : Map :=
  let meta := match map_get "meta" root with Some (Object m) => m | _ => [] end in
  copy_once "originalSource" "source" is_string
    (copy_once "originalUpdatedAt" "updatedAt" is_number
       (copy_once "originalCreatedAt" "createdAt" is_number meta)).

Definition convert_uec_v1_to_v2 (card : Value) : Result Value :=
  if negb (is_object card) then Err "card must be an object" else
  let validation := validate_uec card false in
  if negb (ok validation) then
    Err ("card must be a valid v1 UEC: " +++ String.concat "; " (errors validation))
  else
  let version := match schema_version card with Some v => v | None => EmptyString end in
  if negb (String.eqb version SCHEMA_VERSION) then
    Err ("card must be schema version " +++ dq +++ SCHEMA_VERSION +++ dq +++ " to convert")
  else
  match card with
  | Object root =>
      let root :=
        match map_get "schema" root with
        | Some (Object schema) =>
            map_insert "schema" (Object (map_insert "version" (Str SCHEMA_VERSION_V2) schema)) root
        | _ => root
        end in
      let root :=
        match map_get "payload" root with
        | Some (Object payload) => map_insert "payload" (Object (convert_payload payload)) root
        | _ => root
        end in
      Ok (Object (map_insert "meta" (Object (convert_meta root)) root))
  | _ => Ok card
  end.

(** ** Downgrade v2 -> v1 ([tools.rs: downgrade_uec]) *)

Record DowngradeResult : Type := { card : Value; warnings : list string }.

Definition v1_scenes (payload : Map) : Map :=
  match map_get "scene" payload with
  | Some scene =>
      let payload := map_remove "scene" payload in
      match scene with
      | Object scene_map =>
          let scene_map :=
            match map_get "selectedVariant" scene_map with
            | Some selected =>
                let scene_map := map_remove "selectedVariant" scene_map in
                if is_zero_number selected then map_insert "selectedVariantId" Null scene_map
                else map_insert "selectedVariantId" selected scene_map
            | None => scene_map
            end in
          let scene_id := map_get "id" scene_map in
          let payload := map_insert "scenes" (Array [Object scene_map]) payload in
          match scene_id with
          | Some id => map_insert "defaultSceneId" id payload
          | None => payload
          end
      | _ => payload
      end
  | None => payload
  end.

Definition removed_fields : list string :=
  ["fallbackModelId"; "nickname"; "creator"; "creatorNotes"; "creatorNotesMultilingual";
   "source"; "characterBook"].

(** [for field in removed_fields { if payload.remove(field).is_some() { warn } }] *)
Definition remove_fields (payload : Map) : Map * list string :=
  fold_left
    (fun (acc : Map * list string) (field : string) =>
       let (payload, warnings) := acc in
       match map_get field payload with
       | Some _ =>
           (map_remove field payload,
            warnings ++ ["payload." +++ field +++ " is not supported in v1 and was removed"])
       | None => (payload, warnings)
       end) removed_fields (payload, []).

Definition downgrade_payload (payload : Map) (keep_rules : bool) : Map * list string :=
  let payload := v1_scenes payload in
  let (payload, w1) :=
    match map_get "promptTemplateId" payload with
    | Some prompt_template_id =>
        let payload := map_remove "promptTemplateId" payload in
        let payload :=
          if match map_get "systemPrompt" payload with None => true | Some v => is_null v end
          then match as_str prompt_template_id with
               | Some template_id => map_insert "systemPrompt" (Str ("_ID:" +++ template_id)) payload
               | None => payload
               end
          else payload in
        (payload, ["payload.promptTemplateId was mapped to v1 systemPrompt and then removed"])
    | None => (payload, [])
    end in
  let (payload, w2) := remove_fields payload in
  let payload :=
    if negb keep_rules && negb (map_contains_key "rules" payload)
    then map_insert "rules" (Array []) payload else payload in
  (payload, w1 ++ w2).

Definition remove_meta_field (field : string) (acc : Map * list string) : Map * list string :=
  let (meta, warnings) := acc in
  match map_get field meta with
  | Some _ =>
      (map_remove field meta,
       warnings ++ ["meta." +++ field +++ " was removed for v1 compatibility"])
  | None => (meta, warnings)
  end.

Definition downgrade_uec (card : Value) (target_version : string) (keep_rules : bool)
  : Result DowngradeResult :=
  if negb (String.eqb target_version SCHEMA_VERSION) then
    Err ("unsupported target version: " +++ target_version) else
  match schema_version card with
  | None => Err "card must be an object with a schema"
  | Some version =>
      if String.eqb version SCHEMA_VERSION then
        Ok {| card := normalize_uec card; warnings := [] |}
      else if negb (String.eqb version SCHEMA_VERSION_V2) then
        Err ("unsupported source version: " +++ version)
      else
      match card with
      | Object root =>
          let root :=
            match map_get "schema" root with
            | Some (Object schema) =>
                map_insert "schema" (Object (map_insert "version" (Str SCHEMA_VERSION) schema)) root
            | _ => root
            end in
          let (root, w1) :=
            match map_get "payload" root with
            | Some (Object payload) =>
                let (payload, w) := downgrade_payload payload keep_rules in
                (map_insert "payload" (Object payload) root, w)
            | _ => (root, [])
            end in
          let (root, w2) :=
            match map_get "meta" root with
            | Some (Object meta) =>
                let (meta, w) :=
                  remove_meta_field "originalSource"
                    (remove_meta_field "originalUpdatedAt"
                       (remove_meta_field "originalCreatedAt" (meta, []))) in
                (map_insert "meta" (Object meta) root, w)
            | _ => (root, [])
            end in
          Ok {| card := Object root; warnings := w1 ++ w2 |}
      | _ => Ok {| card := card; warnings := [] |}
      end
  end.

(** ** Merge ([tools.rs: merge_values], [merge_uec]) *)

Record MergeOptions : Type := { array : option string; conflict : option string }.

(** [format!("{}.{}", path, key)], or [key] at the root. *)
Definition key_path (path key : string) : string :=
  if String.eqb path EmptyString then key else path +++ "." +++ key.

(** The conflict set [BTreeSet<String>] is threaded through the calls.  The
    object case looks each key up in [right] ([right_map]; [left] and [right]
    are Rocq constructors) and recurses on the value found there:
    [right.contains_key(&key)] holds exactly when the lookup succeeds. *)
Fixpoint merge_values (base incoming : Value) (path : string) (options : MergeOptions)
  (conflicts : list string) {struct incoming} : Value * list string :=
  match incoming with
  | Null => (base, conflicts)
  | _ =>
      match base, incoming with
      | Array left_items, Array right_items =>
          if opt_str_eqb (array options) "concat" then (Array (left_items ++ right_items), conflicts)
          else (Array right_items,
                if value_eqb (Array left_items) (Array right_items) then conflicts
                else set_insert path conflicts)
      | Object left_map, Object right_map =>
          let keys := set_extend (set_extend [] (map fst left_map)) (map fst right_map) in
          let (merged, conflicts) :=
            fold_left
              (fun (acc : Map * list string) (key : string) =>
                 let (merged, conflicts) := acc in
                 let next_path := key_path path key in
                 let left_value := match map_get key left_map with Some v => v | None => Null end in
                 let (merged_value, conflicts) :=
                   match map_get_with
                           (fun right_value =>
                              merge_values left_value right_value next_path options conflicts)
                           key right_map with
                   | Some r => r
                   | None => (left_value, conflicts)
                   end in
                 (map_insert key merged_value merged, conflicts))
              keys ([], conflicts) in
          (Object merged, conflicts)
      | _, _ =>
          (if opt_str_eqb (conflict options) "base" then base else incoming,
           if value_eqb base incoming then conflicts else set_insert path conflicts)
      end
  end.

Record MergeResult : Type := { value : Value; conflicts : list string }.

Definition merge_uec (base incoming : Value) (options : MergeOptions) : MergeResult :=
  let (merged, conflicts) := merge_values base incoming EmptyString options [] in
  {| value := merged;
     conflicts := filter (fun item => negb (String.eqb item EmptyString)) conflicts |}.

(** ** Asset walker ([tools.rs: extract_assets], [rewrite_assets]) *)

(** [AssetReference { path, kind, value }] *)
Record AssetReference : Type := { ar_path : string; ar_kind : string; ar_value : Value }.

Definition is_asset_locator_object (value : Value) : bool :=
  is_some_and (opt_bind (get "type" value) as_str) is_valid_locator_type.

Definition is_likely_asset_string (value : Value) : bool :=
  match value with
  | Str content =>
      String.prefix "http://" content || String.prefix "https://" content
      || String.prefix "data:" content
  | _ => false
  end.

Fixpoint extract_assets_walk (value : Value) (path : string) : list AssetReference :=
  if is_likely_asset_string value then
    [{| ar_path := path; ar_kind := "string"; ar_value := value |}]
  else if is_object value && is_asset_locator_object value then
    [{| ar_path := path; ar_kind := "locator"; ar_value := value |}]
  else
    match value with
    | Array items =>
        (fix go (index : nat) (items : list Value) : list AssetReference :=
           match items with
           | [] => []
           | item :: rest => extract_assets_walk item (index_path path index) ++ go (S index) rest
           end) 0 items
    | Object m =>
        (fix go (m : Map) : list AssetReference :=
           match m with
           | [] => []
           | (key, item) :: rest => extract_assets_walk item (key_path path key) ++ go rest
           end) m
    | _ => []
    end.

Definition extract_assets (card : Value) : list AssetReference :=
  extract_assets_walk card EmptyString.

(** The [FnMut] mapper is embedded as a function of the reference. *)
Fixpoint rewrite_walk (mapper : AssetReference -> Value) (value : Value) (path : string)
  : Value :=
  if is_likely_asset_string value then
    mapper {| ar_path := path; ar_kind := "string"; ar_value := value |}
  else if is_object value && is_asset_locator_object value then
    mapper {| ar_path := path; ar_kind := "locator"; ar_value := value |}
  else
    match value with
    | Array items =>
        Array ((fix go (index : nat) (items : list Value) : list Value :=
                  match items with
                  | [] => []
                  | item :: rest => rewrite_walk mapper item (index_path path index) :: go (S index) rest
                  end) 0 items)
    | Object m =>
        Object ((fix go (out : Map) (m : Map) : Map :=
                   match m with
                   | [] => out
                   | (key, item) :: rest =>
                       go (map_insert key (rewrite_walk mapper item (key_path path key)) out) rest
                   end) [] m)
    | _ => value
    end.

Definition rewrite_assets (card : Value) (mapper : AssetReference -> Value) : Value :=
  rewrite_walk mapper card EmptyString.

(** The identity mapper: every reference is replaced by its own value. *)
Definition identity_mapper (reference : AssetReference) : Value := ar_value reference.

(** ** Lint ([tools.rs: lint_uec]) *)

Record LintResult : Type := { lint_ok : bool; lint_warnings : list string }.

(** [char::is_whitespace] on the UTF-8 bytes of a string: ASCII tab, line
    feed, vertical tab, form feed, carriage return and space, and the
    multi-byte encodings of U+0085, U+00A0, U+1680, U+2000..U+200A, U+2028,
    U+2029, U+202F, U+205F and U+3000. *)
Definition ascii_ws (c : nat) : bool :=
  ((Nat.leb 9 c) && (Nat.leb c 13)) || (Nat.eqb c 32).

Definition ws3 (c1 c2 c3 : nat) : bool :=
  ((Nat.eqb c1 225) && (Nat.eqb c2 154) && (Nat.eqb c3 128))
  || ((Nat.eqb c1 226) && (Nat.eqb c2 128) && (((Nat.leb 128 c3) && (Nat.leb c3 138)) || (Nat.eqb c3 168)
                                      || (Nat.eqb c3 169) || (Nat.eqb c3 175)))
  || ((Nat.eqb c1 226) && (Nat.eqb c2 129) && (Nat.eqb c3 159))
  || ((Nat.eqb c1 227) && (Nat.eqb c2 128) && (Nat.eqb c3 128)).

Fixpoint all_whitespace (bytes : list nat) : bool :=
  match bytes with
  | [] => true
  | c :: r =>
      if ascii_ws c then all_whitespace r else
      match r with
      | c2 :: r2 =>
          if (Nat.eqb c 194) && ((Nat.eqb c2 133) || (Nat.eqb c2 160)) then all_whitespace r2 else
          match r2 with
          | c3 :: r3 => if ws3 c c2 c3 then all_whitespace r3 else false
          | [] => false
          end
      | [] => false
      end
  end.

(** [s.trim().is_empty()] *)
Definition trim_is_empty (s : string) : bool :=
  all_whitespace (map nat_of_ascii (list_ascii_of_string s)).

(** [created.zip(updated).is_some_and(|(c, u)| c > u)] *)
Definition inverted (created updated : option Z) : bool :=
  match created, updated with
  | Some c, Some u => (u <? c)%Z
  | _, _ => false
  end.

Definition lint_scene (card : Value) (payload : Map) : list string :=
  if opt_str_eqb (schema_version card) SCHEMA_VERSION_V2 then
    match opt_bind (map_get "scene" payload) as_object with
    | Some scene =>
        match opt_bind (map_get "selectedVariant" scene) as_str with
        | Some selected_variant =>
            match opt_bind (map_get "variants" scene) as_array with
            | Some variants =>
                let known_ids :=
                  flat_map (fun variant =>
                              match opt_bind (opt_bind (as_object variant) (map_get "id")) as_str with
                              | Some id => [id]
                              | None => []
                              end) variants in
                if negb (existsb (String.eqb selected_variant) known_ids) then
                  ["payload.scene.selectedVariant does not match any variant id"]
                else []
            | None => []
            end
        | None => []
        end
    | None => []
    end
  else [].

Definition lint_asset (asset : AssetReference) : list string :=
  if String.eqb (ar_kind asset) "locator"
     && opt_str_eqb (opt_bind (get "type" (ar_value asset)) as_str) "inline_base64"
     && is_some_and (opt_bind (get "data" (ar_value asset)) as_str)
          (fun data => Nat.ltb 200000 (String.length data))
  then [ar_path asset +++ ": inline_base64 asset is very large"]
  else [].

Definition lint_uec (card : Value) : LintResult :=
  match opt_bind (get "payload" card) as_object with
  | None => {| lint_ok := false; lint_warnings := ["root: not a valid UEC object shape"] |}
  | Some payload =>
      let warnings :=
        (if is_some_and (opt_bind (map_get "description" payload) as_str) trim_is_empty
         then ["payload.description is an empty string"] else [])
        ++ (if inverted (opt_bind (map_get "createdAt" payload) as_i64)
                        (opt_bind (map_get "updatedAt" payload) as_i64)
            then ["payload.createdAt is greater than payload.updatedAt"] else [])
        ++ (match opt_bind (get "meta" card) as_object with
            | Some meta =>
                if inverted (opt_bind (map_get "createdAt" meta) as_i64)
                            (opt_bind (map_get "updatedAt" meta) as_i64)
                then ["meta.createdAt is greater than meta.updatedAt"] else []
            | None => []
            end)
        ++ lint_scene card payload
        ++ flat_map lint_asset (extract_assets card) in
      {| lint_ok := is_empty warnings; lint_warnings := warnings |}
  end.

(** ** Version-aware entry points ([tools.rs: upgrade_uec]) *)

Definition upgrade_uec (card : Value) (target_version : string) : Result Value :=
  match schema_version card with
  | None => Err "card must be an object with a schema"
  | Some version =>
      if String.eqb target_version SCHEMA_VERSION_V2 then
        if String.eqb version SCHEMA_VERSION_V2 then Ok (normalize_uec card)
        else if String.eqb version SCHEMA_VERSION then convert_uec_v1_to_v2 card
        else Err ("unsupported source version: " +++ version)
      else if String.eqb target_version SCHEMA_VERSION then
        match downgrade_uec card SCHEMA_VERSION false with
        | Ok {| card := c |} => Ok c
        | Err e => Err e
        end
      else Err ("unsupported target version: " +++ target_version)
  end.

(** ** Structural diff ([tools.rs: walk_diff], [diff_uec]) *)

Record UecDiffEntry : Type := {
  path : string;
  change_type : string;
  before : option Value;
  after : option Value }.

(** The fall-through arm of [walk_diff]: one ["changed"] entry, at ["root"]
    when the path is empty. *)
Definition changed_entry (a b : Value) (path : string) : UecDiffEntry :=
  {| path := if String.eqb path EmptyString then "root" else path;
     change_type := "changed"; before := Some a; after := Some b |}.

(** [walk_diff] on a pair of which one side is [Null] (a padded array
    element): [Null] is neither an array nor an object, so the call either
    returns at [a == b] or takes the fall-through arm ([walk_diff_null_l],
    [walk_diff_null_r] below). *)
Definition leaf_diff (a b : Value) (path : string) : list UecDiffEntry :=
  if value_eqb a b then [] else [changed_entry a b path].

(** [out] only grows by [push]: the call is embedded as the list of entries
    it pushes, in order.  The recursion follows the right-hand value;
    [left.get(index).unwrap_or(&Value::Null)] pads the shorter array with
    [Null], and the four-way match on the two lookups of the object case is
    written as a lookup in [left] followed by one in [right]. *)
Fixpoint walk_diff (a b : Value) (path : string) {struct b} : list UecDiffEntry :=
  if value_eqb a b then [] else
  match a, b with
  | Array left_items, Array right_items =>
      (fix go (index : nat) (ls rs : list Value) {struct rs} : list UecDiffEntry :=
         match rs with
         | [] =>
             (fix tail (index : nat) (ls : list Value) : list UecDiffEntry :=
                match ls with
                | [] => []
                | l :: ls' => leaf_diff l Null (index_path path index) ++ tail (S index) ls'
                end) index ls
         | r :: rs' =>
             match ls with
             | [] => leaf_diff Null r (index_path path index) ++ go (S index) [] rs'
             | l :: ls' => walk_diff l r (index_path path index) ++ go (S index) ls' rs'
             end
         end) 0 left_items right_items
  | Object left_map, Object right_map =>
      flat_map
        (fun key =>
           let next_path := key_path path key in
           match map_get key left_map with
           | None =>
               match map_get key right_map with
               | Some after =>
                   [{| path := next_path; change_type := "added";
                       before := None; after := Some after |}]
               | None => []
               end
           | Some before =>
               match map_get_with (fun after => walk_diff before after next_path) key right_map with
               | Some entries => entries
               | None =>
                   [{| path := next_path; change_type := "removed";
                       before := Some before; after := None |}]
               end
           end)
        (set_extend (set_extend [] (map fst left_map)) (map fst right_map))
  | _, _ => [changed_entry a b path]
  end.

Definition diff_uec (left right : Value) : list UecDiffEntry :=
  walk_diff (normalize_uec left) (normalize_uec right) EmptyString.

(** ** Wrappers of [validate_uec] ([validators.rs]) *)

Definition validate_uec_strict (value : Value) : ValidationResult := validate_uec value true.

(** [result.errors.push(format!(...))]: the message is pushed as it is, not
    through [push_error]. *)
Definition validate_uec_at_version (value : Value) (version : string) (strict : bool)
  : ValidationResult :=
  let result := validate_uec value strict in
  match schema_version value with
  | Some current =>
      if negb (String.eqb current version) then
        {| ok := false;
           errors := errors result
                     ++ ["schema.version: expected " +++ dq +++ version +++ dq
                         +++ " but received " +++ dq +++ current +++ dq] |}
      else result
  | None => result
  end.

Definition is_uec (value : Value) (strict : bool) : bool := ok (validate_uec value strict).

Definition is_character_uec (value : Value) (strict : bool) : bool :=
  is_uec value strict && is_some_and (opt_bind (get "kind" value) as_str)
                           (fun kind => String.eqb kind "character").

Definition is_persona_uec (value : Value) (strict : bool) : bool :=
  is_uec value strict && is_some_and (opt_bind (get "kind" value) as_str)
                           (fun kind => String.eqb kind "persona").

(** ** Card construction ([create.rs]) *)

(** [str::starts_with] *)
Definition starts_with (prefix s : string) : bool :=
  match strip_prefix prefix s with Some _ => true | None => false end.

Definition normalize_system_prompt (payload : Value) (system_prompt_is_id : bool) : Value :=
  if negb system_prompt_is_id then payload else
  match payload with
  | Object map =>
      match map_get "systemPrompt" map with
      | Some (Str prompt) =>
          if starts_with "_ID:" prompt then payload
          else Object (map_insert "systemPrompt" (Str ("_ID:" +++ prompt)) map)
      | _ => payload
      end
  | _ => payload
  end.

(** The two [assert!]s panic: a panic is [None]. *)
Definition create_uec (kind : string) (payload : Value) (schema : option Map)
  (app_specific_settings meta extensions : option Value) (system_prompt_is_id : bool)
  : option Value :=
  if String.eqb kind EmptyString then None else
  if negb (is_object payload) then None else
  let is_v2 := opt_str_eqb (opt_bind (opt_bind schema (map_get "version")) as_str)
                 SCHEMA_VERSION_V2 in
  let schema_value :=
    map_from_entries [("name", Str SCHEMA_NAME);
                      ("version", Str (if is_v2 then SCHEMA_VERSION_V2 else SCHEMA_VERSION))] in
  let schema_value :=
    match schema with
    | Some custom_schema =>
        fold_left (fun acc kv => map_insert (fst kv) (snd kv) acc) custom_schema schema_value
    | None => schema_value
    end in
  let normalized_payload :=
    if String.eqb kind "character" && negb is_v2
    then normalize_system_prompt payload system_prompt_is_id else payload in
  let root := map_insert "schema" (Object schema_value) [] in
  let root := map_insert "kind" (Str kind) root in
  let root := map_insert "payload" normalized_payload root in
  let root := map_insert "app_specific_settings"
                (match app_specific_settings with Some v => v | None => Object [] end) root in
  let root := map_insert "meta" (match meta with Some v => v | None => Object [] end) root in
  let root := map_insert "extensions"
                (match extensions with Some v => v | None => Object [] end) root in
  Some (Object root).

Definition create_character_uec (payload : Map) (system_prompt_is_id : bool)
  (schema : option Map) (app_specific_settings meta extensions : option Value) : option Value :=
  create_uec "character" (Object payload) schema app_specific_settings meta extensions
    system_prompt_is_id.

Definition create_persona_uec (payload : Map) (schema : option Map)
  (app_specific_settings meta extensions : option Value) : option Value :=
  create_uec "persona" (Object payload) schema app_specific_settings meta extensions false.

Definition create_character_uec_v2 (payload : Map) (schema : option Map)
  (app_specific_settings meta extensions : option Value) : option Value :=
  let schema_map := match schema with Some s => s | None => [] end in
  let schema_map := map_insert "version" (Str SCHEMA_VERSION_V2) schema_map in
  create_uec "character" (Object payload) (Some schema_map) app_specific_settings meta
    extensions false.

Definition create_persona_uec_v2 (payload : Map) (schema : option Map)
  (app_specific_settings meta extensions : option Value) : option Value :=
  let schema_map := match schema with Some s => s | None => [] end in
  let schema_map := map_insert "version" (Str SCHEMA_VERSION_V2) schema_map in
  create_uec "persona" (Object payload) (Some schema_map) app_specific_settings meta
    extensions false.

Definition _system_prompt_is_id (payload : Value) : bool :=
  is_some_and (opt_bind (get "systemPrompt" payload) as_str)
    (fun prompt => is_string (Str prompt) && starts_with "_ID:" prompt).

(** ** Auxiliary definitions for stating the properties *)

(** The value found by following a path of object keys ([None] when the
    path leaves the objects). *)
Fixpoint at_path (v : Value) (p : list string) : option Value :=
  match p with
  | [] => Some v
  | k :: p' =>
      match v with
      | Object m => match map_get k m with Some c => at_path c p' | None => None end
      | _ => None
      end
  end.

(** The card with [schema.version] replaced, the same update
    [convert_uec_v1_to_v2] and [downgrade_uec] make. *)
Definition with_version (card : Value) (version : string) : Value :=
  match card with
  | Object root =>
      match map_get "schema" root with
      | Some (Object schema) =>
          Object (map_insert "schema" (Object (map_insert "version" (Str version) schema)) root)
      | _ => card
      end
  | _ => card
  end.

(** The keys the object case of [merge_values] iterates over. *)
Definition merge_keys (left_map right_map : Map) : list string :=
  set_extend (set_extend [] (map fst left_map)) (map fst right_map).

(** The value the object case of [merge_values] stores under [key]. *)
Definition merge_entry (left_map right_map : Map) (options : MergeOptions) (key : string)
  : Value :=
  let left_value := match map_get key left_map with Some v => v | None => Null end in
  match map_get key right_map with
  | Some right_value => fst (merge_values left_value right_value EmptyString options [])
  | None => left_value
  end.

(** The message [validate_schema] pushes for an unrecognised version. *)
Definition unknown_version_error (v : string) : string :=
  "schema.version: unknown version " +++ dq +++ v +++ dq.

(** The pieces of [validate_schema]'s errors and of [lint_uec]'s variant ids,
    and the merge options of the [base] conflict policy. *)

Definition base_options : MergeOptions := {| array := None; conflict := Some "base" |}.

Definition payload_object_errors (payload : option Value) : list string :=
  unless (is_some_and payload is_object) "payload" "must be an object".

Definition schema_name_errors (schema : Map) : list string :=
  if negb (is_some_and (map_get "name" schema) is_string) then push_error "schema.name" "must be a string"
  else if negb (match opt_bind (map_get "name" schema) as_str with
                | Some n => String.eqb n SCHEMA_NAME | None => false end)
  then push_error "schema.name" ("must be " +++ dq +++ "UEC" +++ dq)
  else [].

Definition schema_compat_errors (schema : Map) : list string :=
  match map_get "compat" schema with
  | Some compat => unless (is_string compat) "schema.compat" "must be a string if provided"
  | None => []
  end.

Record converted_scenario (q : Map) : Prop := {
  cs_rules : map_get "rules" q = None;
  cs_scenes : map_get "scenes" q = None;
  cs_default : map_get "defaultSceneId" q = None;
  cs_selected : at_path (Object q) ["scene"; "selectedVariant"] = Some (Number (PosInt 0));
  cs_template : map_get "promptTemplateId" q = Some (Str "template-1");
  cs_prompt : map_get "systemPrompt" q = Some Null
}.

Definition variant_id (variant : Value) : option string :=
  opt_bind (opt_bind (as_object variant) (map_get "id")) as_str.

Definition diff_entry_ok (e : UecDiffEntry) : Prop :=
  (change_type e = "added" /\ before e = None /\ exists v, after e = Some v) \/
  (change_type e = "removed" /\ (exists v, before e = Some v) /\ after e = None) \/
  (change_type e = "changed" /\
   exists x y, before e = Some x /\ after e = Some y /\ value_eqb x y = false).

Definition str_lt (a b : string) : Prop := String.compare a b = Lt.

Definition flip_change (t : string) : string :=
  if String.eqb t "added" then "removed" else if String.eqb t "removed" then "added" else t.

(** An entry read in the opposite direction. *)
Definition flip_entry (e : UecDiffEntry) : UecDiffEntry :=
  {| path := path e; change_type := flip_change (change_type e);
     before := after e; after := before e |}.

(** The errors [validate_meta_v2] reports for the empty [meta] object. *)
Definition empty_meta_v2_errors (strict : bool) : list string :=
  if strict then
    push_error "meta.originalCreatedAt" "is required in strict mode"
    ++ push_error "meta.originalUpdatedAt" "is required in strict mode"
  else [].

Definition asset_reference_ok (r : AssetReference) : Prop :=
  (ar_kind r = "string" /\ is_likely_asset_string (ar_value r) = true) \/
  (ar_kind r = "locator" /\ is_object (ar_value r) = true /\
   is_asset_locator_object (ar_value r) = true).

(** ** Example cards *)

Definition example_v1_card : Value :=
  Object [("kind", Str "character");
          ("meta", Object [("createdAt", Number (PosInt 5))]);
          ("payload", Object [("defaultSceneId", Str "scene-1"); ("id", Str "a"); ("name", Str "b");
                              ("rules", Array [Str "r1"]);
                              ("scenes", Array [Object [("content", Str "hello"); ("id", Str "scene-1");
                                                        ("selectedVariantId", Null)]]);
                              ("systemPrompt", Str "_ID:template-1")]);
          ("schema", Object [("name", Str "UEC"); ("version", Str "1.0")])].

Definition example_asset_doc : Value :=
  Object [("a", Str "http://x");
          ("b", Object [("type", Str "remote_url"); ("url", Str "https://y")]);
          ("c", Array [Number (PosInt 1); Object [("z", Str "data:q")]])].

Definition example_meta_null_card : Value :=
  match example_v1_card with Object root => Object (map_insert "meta" Null root) | v => v end.

Definition example_unknown_version_card : Value := with_version example_v1_card "9.9".

Definition example_v2_card : Value :=
  match convert_uec_v1_to_v2 example_v1_card with Ok c => c | Err _ => Null end.

Definition example_v2_rules_card : Value :=
  match example_v2_card with
  | Object root =>
      match map_get "payload" root with
      | Some (Object p) => Object (map_insert "payload" (Object (map_insert "rules" (Array [Str "x"]) p)) root)
      | _ => Null
      end
  | _ => Null
  end.

Definition example_v2_root : Map :=
  match example_v2_card with Object r => r | _ => [] end.

Definition example_v2_payload : Map :=
  match map_get "payload" example_v2_root with Some (Object p) => p | _ => [] end.

Definition example_merge_base : Value := Object [("a", Str "x"); ("b", Array [Null])].

Definition example_merge_incoming : Value := Object [("a", Str "y"); ("b", Array [Bool true])].

Definition example_v1_root : Map :=
  match example_v1_card with Object r => r | _ => [] end.

Definition example_v1_payload : Map :=
  match map_get "payload" example_v1_root with Some (Object p) => p | _ => [] end.

Definition example_v1_scene : Map :=
  match map_get "scenes" example_v1_payload with Some (Array [Object sc]) => sc | _ => [] end.

Definition example_lint_scene : Map :=
  [("selectedVariant", Str "missing"); ("variants", Array [Object [("id", Str "v1")]])].

Definition example_lint_payload : Map :=
  [("createdAt", Number (PosInt 20)); ("description", Str " ");
   ("scene", Object example_lint_scene); ("updatedAt", Number (PosInt 10))].

Definition example_lint_card : Value :=
  Object [("payload", Object example_lint_payload);
          ("schema", Object [("name", Str "UEC"); ("version", Str "2.0")])].

Definition example_lint_card_no_variants : Value :=
  Object [("payload", Object [("createdAt", Number (PosInt 20)); ("description", Str " ");
                              ("scene", Object [("selectedVariant", Str "missing")]);
                              ("updatedAt", Number (PosInt 10))]);
          ("schema", Object [("name", Str "UEC"); ("version", Str "2.0")])].

(** ** Basic facts: strings, maps, sets *)

Lemma str_compare_refl (s : string) : String.compare s s = Eq.
Proof.
  induction s as [|c s IH]; simpl; auto.
  unfold Ascii.compare. rewrite N.compare_refl. exact IH.
Qed.

Lemma str_compare_eq (a b : string) : String.compare a b = Eq <-> a = b.
Proof.
  split; [apply String.compare_eq_iff | intros ->; apply str_compare_refl].
Qed.

Lemma str_compare_lt_trans (a b c : string) :
  String.compare a b = Lt -> String.compare b c = Lt -> String.compare a c = Lt.
Proof.
  revert b c; induction a as [|x a IH]; intros [|y b] [|z c]; simpl; try discriminate; auto.
  unfold Ascii.compare.
  destruct (N.compare_spec (N_of_ascii x) (N_of_ascii y)) as [E1|E1|E1];
  destruct (N.compare_spec (N_of_ascii y) (N_of_ascii z)) as [E2|E2|E2];
  try discriminate; intros H1 H2.
  - rewrite E1, E2, N.compare_refl. eauto.
  - rewrite E1. apply N.compare_lt_iff in E2. rewrite (proj2 (N.compare_lt_iff _ _) E2). auto.
  - rewrite <- E2. rewrite (proj2 (N.compare_lt_iff _ _) E1). auto.
  - assert (E : (N_of_ascii x < N_of_ascii z)%N) by lia.
    rewrite (proj2 (N.compare_lt_iff _ _) E). auto.
Qed.

Lemma str_compare_gt_lt (a b : string) : String.compare a b = Gt -> String.compare b a = Lt.
Proof. intros H. rewrite String.compare_antisym, H. reflexivity. Qed.

Lemma str_compare_lt_gt (a b : string) : String.compare a b = Lt -> String.compare b a = Gt.
Proof. intros H. rewrite String.compare_antisym, H. reflexivity. Qed.

Lemma str_lt_neq (a b : string) : String.compare a b = Lt -> String.eqb a b = false.
Proof.
  intros H. apply String.eqb_neq. intros ->. rewrite str_compare_refl in H. discriminate.
Qed.

Lemma map_get_insert (k k' : string) (v : Value) (m : Map) :
  map_get k (map_insert k' v m) = if String.eqb k k' then Some v else map_get k m.
Proof.
  induction m as [|[k0 v0] r IH]; simpl; auto.
  destruct (String.compare k' k0) eqn:C; simpl.
  - apply String.compare_eq_iff in C; subst k0. destruct (String.eqb k k'); auto.
  - reflexivity.
  - rewrite IH. destruct (String.eqb_spec k k0) as [->|Hne]; auto.
    destruct (String.eqb_spec k0 k') as [->|]; auto.
    rewrite str_compare_refl in C. discriminate.
Qed.

Lemma map_get_remove_ne (k k' : string) (m : Map) :
  String.eqb k k' = false -> map_get k (map_remove k' m) = map_get k m.
Proof.
  intros Hne. induction m as [|[k0 v0] r IH]; simpl; auto.
  destruct (String.eqb_spec k' k0) as [->|]; simpl.
  - rewrite Hne. reflexivity.
  - rewrite IH. reflexivity.
Qed.

Lemma map_get_with_spec {B : Type} (f : Value -> B) (k : string) (m : Map) :
  map_get_with f k m = option_map f (map_get k m).
Proof. induction m as [|[k0 v0] r IH]; simpl; auto. destruct (String.eqb k k0); auto. Qed.

Lemma map_get_in (k : string) (v : Value) (m : Map) :
  map_get k m = Some v -> In (k, v) m.
Proof.
  induction m as [|[k0 v0] r IH]; simpl; try discriminate.
  destruct (String.eqb_spec k k0) as [->|]; intros H; [injection H as <-; auto | auto].
Qed.

Lemma map_get_none_not_in (k : string) (m : Map) :
  map_get k m = None -> ~ In k (map fst m).
Proof.
  induction m as [|[k0 v0] r IH]; simpl; auto.
  destruct (String.eqb_spec k k0) as [->|Hne]; try discriminate.
  intros H [E|E]; [congruence | exact (IH H E)].
Qed.

Lemma map_get_some_in (k : string) (m : Map) (v : Value) :
  map_get k m = Some v -> In k (map fst m).
Proof. intros H. apply map_get_in in H. apply (in_map fst) in H. exact H. Qed.

(** Lookups past a key that is smaller than every key of a sorted map. *)
Lemma map_get_sorted_absent (k : string) (m : Map) :
  Forall (fun kv => String.compare k (fst kv) = Lt) m -> map_get k m = None.
Proof.
  induction m as [|[k0 v0] r IH]; simpl; auto.
  intros HF; inversion HF; subst. simpl in *. rewrite str_lt_neq by assumption. auto.
Qed.

Lemma map_get_remove_same (k : string) (m : Map) :
  StronglySorted key_lt m -> map_get k (map_remove k m) = None.
Proof.
  induction m as [|[k0 v0] r IH]; simpl; auto.
  intros HS; inversion HS as [|? ? HS' HF]; subst.
  destruct (String.eqb_spec k k0) as [->|Hne].
  - apply map_get_sorted_absent. exact HF.
  - simpl. apply String.eqb_neq in Hne. rewrite Hne. auto.
Qed.

Lemma Forall_map_insert (P : string * Value -> Prop) (k : string) (v : Value) (m : Map) :
  P (k, v) -> Forall P m -> Forall P (map_insert k v m).
Proof.
  intros Hk; induction m as [|[k0 v0] r IH]; simpl; intros HF; auto.
  inversion HF; subst.
  destruct (String.compare k k0); auto.
Qed.

Lemma map_insert_sorted (k : string) (v : Value) (m : Map) :
  StronglySorted key_lt m -> StronglySorted key_lt (map_insert k v m).
Proof.
  induction m as [|[k0 v0] r IH]; simpl; intros HS.
  - repeat constructor.
  - inversion HS as [|? ? HS' HF]; subst.
    destruct (String.compare k k0) eqn:C.
    + apply String.compare_eq_iff in C; subst. constructor; auto.
    + constructor; [constructor; auto|].
      constructor; [exact C|].
      eapply Forall_impl; [|exact HF]. intros [a b]; unfold key_lt; simpl.
      intros H. eapply str_compare_lt_trans; eauto.
    + constructor; auto. apply Forall_map_insert; auto.
      unfold key_lt; simpl. apply str_compare_gt_lt. exact C.
Qed.

Lemma Forall_map_remove (P : string * Value -> Prop) (k : string) (m : Map) :
  Forall P m -> Forall P (map_remove k m).
Proof.
  induction m as [|[k0 v0] r IH]; simpl; intros HF; auto.
  inversion HF; subst. destruct (String.eqb k k0); auto.
Qed.

Lemma map_remove_sorted (k : string) (m : Map) :
  StronglySorted key_lt m -> StronglySorted key_lt (map_remove k m).
Proof.
  induction m as [|[k0 v0] r IH]; simpl; intros HS; auto.
  inversion HS as [|? ? HS' HF]; subst.
  destruct (String.eqb k k0); auto.
  constructor; auto. apply Forall_map_remove. exact HF.
Qed.

(** Inserting a key larger than every key appends it. *)
Lemma map_insert_last (k : string) (v : Value) (m : Map) :
  Forall (fun kv => String.compare (fst kv) k = Lt) m -> map_insert k v m = m ++ [(k, v)].
Proof.
  induction m as [|[k0 v0] r IH]; simpl; intros HF; auto.
  inversion HF; subst. simpl in *.
  rewrite (str_compare_lt_gt _ _ H1). rewrite IH; auto.
Qed.

Lemma set_insert_in (x k : string) (s : list string) : In x (set_insert k s) <-> x = k \/ In x s.
Proof.
  induction s as [|k0 r IH]; simpl.
  - intuition congruence.
  - destruct (String.compare k k0) eqn:C; simpl.
    + apply String.compare_eq_iff in C; subst. intuition congruence.
    + intuition congruence.
    + rewrite IH. intuition congruence.
Qed.

Lemma set_extend_in (x : string) (s ks : list string) :
  In x (set_extend s ks) <-> In x s \/ In x ks.
Proof.
  unfold set_extend. revert s; induction ks as [|k r IH]; intros s; simpl.
  - tauto.
  - rewrite IH, set_insert_in. intuition congruence.
Qed.

Lemma merge_keys_in (k : string) (l r : Map) :
  In k (merge_keys l r) <-> In k (map fst l) \/ In k (map fst r).
Proof. unfold merge_keys. rewrite !set_extend_in. simpl. tauto. Qed.

Lemma fold_step_fst (step : Map * list string -> string -> Map * list string)
  (g : string -> Value) :
  (forall m cs key, fst (step (m, cs) key) = map_insert key (g key) m) ->
  forall keys m cs,
    fst (fold_left step keys (m, cs)) = fold_left (fun m key => map_insert key (g key) m) keys m.
Proof.
  intros Hs keys; induction keys as [|key r IH]; intros m cs; simpl; auto.
  destruct (step (m, cs) key) as [m' cs'] eqn:E.
  rewrite IH. f_equal. specialize (Hs m cs key). rewrite E in Hs. exact Hs.
Qed.

Lemma merge_values_fst (incoming : Value) :
  forall base path options cs,
    fst (merge_values base incoming path options cs) =
    fst (merge_values base incoming EmptyString options []).
Proof.
  induction incoming as [| | | |items IH|right IH] using value_ind'; intros base path options cs;
    try (destruct base; simpl; repeat (destruct (opt_str_eqb _ _)); reflexivity).
  destruct base as [| | | |items|left]; simpl; repeat (destruct (opt_str_eqb _ _)); try reflexivity.
  match goal with
  | |- fst (let (_, _) := fold_left ?f ?keys ?i in _) = fst (let (_, _) := fold_left ?f' ?keys' ?i' in _) =>
      assert (E1 : fst (fold_left f keys i) = fold_left (fun m key => map_insert key (merge_entry left right options key) m) keys []);
      [| assert (E2 : fst (fold_left f' keys' i') = fold_left (fun m key => map_insert key (merge_entry left right options key) m) keys' [])]
  end.
  - apply fold_step_fst. intros m cs' key. simpl.
    rewrite map_get_with_spec. unfold merge_entry.
    destruct (map_get key right) as [rv|] eqn:E; simpl; auto.
    rewrite Forall_forall in IH. specialize (IH (key, rv) (map_get_in _ _ _ E)). simpl in IH.
    destruct (merge_values _ rv _ options cs') as [mv c] eqn:M. simpl.
    f_equal. rewrite <- (IH _ (key_path path key) options cs'), M. reflexivity.
  - apply fold_step_fst. intros m cs' key. simpl.
    rewrite map_get_with_spec. unfold merge_entry.
    destruct (map_get key right) as [rv|] eqn:E; simpl; auto.
    rewrite Forall_forall in IH. specialize (IH (key, rv) (map_get_in _ _ _ E)). simpl in IH.
    destruct (merge_values _ rv _ options cs') as [mv c] eqn:M. simpl.
    f_equal. rewrite <- (IH _ (key_path EmptyString key) options cs'), M. reflexivity.
  - destruct (fold_left _ _ (_, cs)) as [m1 c1]. destruct (fold_left _ _ (_, [])) as [m2 c2].
    simpl in *. congruence.
Qed.

Lemma merge_object_fst (left right : Map) (path : string) (options : MergeOptions)
  (cs : list string) :
  fst (merge_values (Object left) (Object right) path options cs) =
  Object (fold_left (fun m key => map_insert key (merge_entry left right options key) m)
            (merge_keys left right) []).
Proof.
  simpl.
  match goal with
  | |- fst (let (_, _) := fold_left ?f ?keys ?i in _) = _ =>
      assert (E1 : fst (fold_left f keys i) =
                   fold_left (fun m key => map_insert key (merge_entry left right options key) m)
                     keys [])
  end.
  - apply fold_step_fst. intros m cs' key. simpl.
    rewrite map_get_with_spec. unfold merge_entry.
    destruct (map_get key right) as [rv|] eqn:E; simpl; auto.
    destruct (merge_values _ rv _ options cs') as [mv c] eqn:M. simpl.
    f_equal. rewrite <- (merge_values_fst rv _ (key_path path key) options cs'), M. reflexivity.
  - destruct (fold_left _ _ (_, cs)) as [m1 c1]. simpl in *. rewrite E1. reflexivity.
Qed.

Lemma fold_insert_get_notin (g : string -> Value) (k : string) :
  forall keys m, ~ In k keys ->
    map_get k (fold_left (fun m key => map_insert key (g key) m) keys m) = map_get k m.
Proof.
  induction keys as [|key r IH]; intros m Hn; simpl; auto.
  simpl in Hn. rewrite IH by tauto. rewrite map_get_insert.
  destruct (String.eqb_spec k key); [subst; tauto | reflexivity].
Qed.

Lemma fold_insert_get_in (g : string -> Value) (k : string) :
  forall keys m, In k keys ->
    map_get k (fold_left (fun m key => map_insert key (g key) m) keys m) = Some (g k).
Proof.
  induction keys as [|key r IH]; intros m Hin; simpl in *; [contradiction|].
  destruct (in_dec String.string_dec k r) as [Hr|Hr]; [apply IH; exact Hr|].
  destruct Hin as [->|]; [|contradiction].
  rewrite fold_insert_get_notin by exact Hr. rewrite map_get_insert, String.eqb_refl. reflexivity.
Qed.

Lemma value_eqb_refl (v : Value) : value_eqb v v = true.
Proof.
  induction v as [|b|n|s|items IH|m IH] using value_ind'; simpl.
  - reflexivity.
  - destruct b; reflexivity.
  - destruct n; simpl; [apply N.eqb_refl | apply Z.eqb_refl | apply Z.eqb_refl].
  - apply String.eqb_refl.
  - induction IH; auto. rewrite H, IHIH. reflexivity.
  - induction IH as [|[k x] r Hx _ IHr]; auto. simpl in Hx. rewrite String.eqb_refl, Hx, IHr. reflexivity.
Qed.

Lemma fold_step_snd (step : Map * list string -> string -> Map * list string) :
  (forall acc key, snd (step acc key) = snd acc) ->
  forall keys acc, snd (fold_left step keys acc) = snd acc.
Proof.
  intros Hs keys; induction keys as [|key r IH]; intros acc; simpl; auto.
  rewrite IH. apply Hs.
Qed.

Lemma merge_values_self_snd (a : Value) :
  forall path options cs, snd (merge_values a a path options cs) = cs.
Proof.
  induction a as [| | | |items IH|m IH] using value_ind'; intros path options cs;
    [reflexivity| | | | |].
  1-3: match goal with |- snd (merge_values ?a ?a _ _ _) = _ =>
         pose proof (value_eqb_refl a) as E end;
       simpl in E |- *; rewrite E; reflexivity.
  - pose proof (value_eqb_refl (Array items)) as E. simpl in E |- *.
    destruct (opt_str_eqb _ _); simpl; [reflexivity|]. rewrite E. reflexivity.
  - simpl. match goal with
    | |- snd (let (_, _) := fold_left ?f ?keys ?i in _) = _ =>
        assert (E1 : snd (fold_left f keys i) = cs)
    end.
    + rewrite fold_step_snd; [reflexivity|]. intros [mm c] key. simpl.
      rewrite map_get_with_spec.
      destruct (map_get key m) as [v|] eqn:E; simpl; auto.
      rewrite Forall_forall in IH. specialize (IH (key, v) (map_get_in _ _ _ E)). simpl in IH.
      destruct (merge_values v v _ options c) as [mv c'] eqn:M. simpl.
      rewrite <- (IH (key_path path key) options c), M. reflexivity.
    + destruct (fold_left _ _ _) as [m1 c1]. simpl in *. exact E1.
Qed.


Lemma merge_base_at_path (p : list string) :
  forall A B a b path cs,
    at_path A p = Some a -> at_path B p = Some b ->
    (if (is_array a && is_array b)%bool then at_path (fst (merge_values A B path base_options cs)) p = Some b
     else if (is_object a && is_object b)%bool then True
     else at_path (fst (merge_values A B path base_options cs)) p = Some a).
Proof.
  induction p as [|k p IH]; intros A B a b path cs HA HB.
  - simpl in HA, HB. injection HA as <-. injection HB as <-.
    destruct B; destruct A; simpl; auto.
  - destruct A as [| | | | |mA]; try discriminate. destruct B as [| | | | |mB]; try discriminate.
    simpl in HA, HB.
    destruct (map_get k mA) as [a0|] eqn:EA; try discriminate.
    destruct (map_get k mB) as [b0|] eqn:EB; try discriminate.
    rewrite merge_object_fst. simpl.
    rewrite fold_insert_get_in by (apply merge_keys_in; left; eapply map_get_some_in; eauto).
    unfold merge_entry. rewrite EA, EB.
    apply (IH a0 b0 a b EmptyString [] HA HB).
Qed.

(** C3 (amended): merging a card with itself reports no conflict, for any
    options.  With the [base] conflict policy (arrays in replace mode), at
    every object-key path where both cards have a value, the merged value is
    the base's when the two values are not both arrays and not both objects,
    and the incoming array when both are arrays. *)
Lemma merge_self_and_base :
  (forall (A : Value) (options : MergeOptions), conflicts (merge_uec A A options) = []) /\
  (forall (A B : Value) (p : list string) (a b : Value),
     at_path A p = Some a -> at_path B p = Some b ->
     ((is_array a && is_array b)%bool = false -> (is_object a && is_object b)%bool = false ->
      at_path (value (merge_uec A B base_options)) p = Some a) /\
     ((is_array a && is_array b)%bool = true ->
      at_path (value (merge_uec A B base_options)) p = Some b)).
Proof.
  split.
  - intros A options. unfold merge_uec.
    pose proof (merge_values_self_snd A EmptyString options []) as E.
    destruct (merge_values A A EmptyString options []) as [v c]. simpl in *. subst. reflexivity.
  - intros A B p a b HA HB.
    pose proof (merge_base_at_path p A B a b EmptyString [] HA HB) as H.
    unfold merge_uec. destruct (merge_values A B EmptyString base_options []) as [v c] eqn:M.
    simpl in H |- *.
    split; intros Harr; rewrite Harr in H; [intros Hobj; rewrite Hobj in H|]; exact H.
Qed.

Lemma merge_base_array_counterexample :
  value (merge_uec (Array [Number (PosInt 1)]) (Array [Number (PosInt 2)]) base_options)
  = Array [Number (PosInt 2)].
Proof. reflexivity. Qed.

(** C6: a null incoming value leaves the base and the conflict list
    unchanged; when both sides are objects, a key of the base that the
    incoming object lacks keeps its base value in the merged object. *)
Lemma merge_null_and_omitted_keys :
  (forall base path options cs, merge_values base Null path options cs = (base, cs)) /\
  (forall left right k v path options cs,
     map_get k left = Some v -> map_get k right = None ->
     exists merged, fst (merge_values (Object left) (Object right) path options cs) = Object merged
                    /\ map_get k merged = Some v).
Proof.
  split; [reflexivity|].
  intros left right k v path options cs HL HR.
  rewrite merge_object_fst. eexists; split; [reflexivity|].
  rewrite fold_insert_get_in by (apply merge_keys_in; left; eapply map_get_some_in; eauto).
  unfold merge_entry. rewrite HL, HR. reflexivity.
Qed.

Lemma StronglySorted_app_before {A} (R : A -> A -> Prop) (l1 l2 : list A) (x : A) :
  StronglySorted R (l1 ++ x :: l2) -> Forall (fun y => R y x) l1.
Proof.
  induction l1 as [|y r IH]; simpl; intros HS; constructor.
  - inversion HS as [|? ? _ HF]; subst.
    rewrite Forall_forall in HF. apply HF, in_or_app. right; left; reflexivity.
  - apply IH. inversion HS; assumption.
Qed.

Lemma rewrite_go_identity (f : string -> Value -> Value) :
  forall m out, StronglySorted key_lt (out ++ m) ->
    Forall (fun kv => f (fst kv) (snd kv) = snd kv) m ->
    (fix go (out : Map) (m : Map) : Map :=
       match m with
       | [] => out
       | (key, item) :: rest => go (map_insert key (f key item) out) rest
       end) out m = out ++ m.
Proof.
  induction m as [|[k v] r IH]; intros out HS HF.
  - rewrite app_nil_r. reflexivity.
  - inversion HF as [|? ? Hkv Hr]; subst. simpl in Hkv. rewrite Hkv.
    rewrite map_insert_last by exact (StronglySorted_app_before _ _ _ _ HS).
    rewrite IH; [rewrite <- app_assoc; reflexivity| |exact Hr].
    rewrite <- app_assoc. exact HS.
Qed.

(** C7: rewriting the assets of a well-formed card with the identity
    mapper returns the card unchanged. *)
Lemma rewrite_assets_identity (D : Value) :
  wf_value D -> rewrite_assets D identity_mapper = D.
Proof.
  unfold rewrite_assets. generalize EmptyString as path. revert D.
  refine (value_ind' _ _ _ _ _ _ _); try (intros; reflexivity).
  - intros s path _. simpl. destruct (_ || _)%bool; reflexivity.
  - intros l IH path Hwf. simpl. f_equal.
    generalize 0%nat as index.
    induction l as [|x r IHl]; intros index; [reflexivity|].
    inversion IH; subst. destruct Hwf as [Hx Hr].
    f_equal; auto.
  - intros m IH path Hwf. simpl.
    destruct (is_asset_locator_object (Object m)); [reflexivity|]. f_equal.
    destruct Hwf as [HS Hm].
    apply (rewrite_go_identity (fun key item => rewrite_walk identity_mapper item (key_path path key)) m []); [exact HS|].
    induction m as [|[k v] r IHm]; constructor; inversion IH; subst; destruct Hm as [Hv Hr].
    + simpl. apply H1. exact Hv.
    + apply IHm; auto. inversion HS; auto.
Qed.

(** C10: whenever the v1 to v2 conversion succeeds, the converted card has
    an object under its top-level [meta] key. *)
Lemma convert_meta_object (card out : Value) :
  convert_uec_v1_to_v2 card = Ok out -> exists m, get "meta" out = Some (Object m).
Proof.
  unfold convert_uec_v1_to_v2. intros H.
  destruct card as [| | | | |root]; simpl in H; try discriminate H.
  repeat match type of H with
         | (if ?b then _ else _) = _ => destruct b; [discriminate H|]
         end.
  injection H as <-. simpl. rewrite map_get_insert. simpl. eexists; reflexivity.
Qed.


Lemma convert_meta_object_witness :
  exists out, convert_uec_v1_to_v2 example_v1_card = Ok out /\ exists m, get "meta" out = Some (Object m).
Proof.
  exists (match convert_uec_v1_to_v2 example_v1_card with Ok o => o | Err _ => Null end).
  split; [vm_compute; reflexivity|].
  apply (convert_meta_object example_v1_card). vm_compute. reflexivity.
Defined.

Lemma rewrite_assets_identity_witness :
  wf_value example_asset_doc /\ rewrite_assets example_asset_doc identity_mapper = example_asset_doc.
Proof.
  assert (W : wf_value example_asset_doc) by (simpl; repeat (split || constructor)).
  split; [exact W | apply rewrite_assets_identity; exact W].
Defined.

Lemma fold_insert_sorted (m out : Map) :
  StronglySorted key_lt (out ++ m) ->
  fold_left (fun acc kv => map_insert (fst kv) (snd kv) acc) m out = out ++ m.
Proof.
  revert out; induction m as [|[k v] r IH]; intros out HS; simpl.
  - rewrite app_nil_r. reflexivity.
  - rewrite map_insert_last by exact (StronglySorted_app_before _ _ _ _ HS).
    rewrite IH; [rewrite <- app_assoc; reflexivity|]. rewrite <- app_assoc. exact HS.
Qed.

Lemma map_from_entries_sorted (m : Map) :
  StronglySorted key_lt m -> map_from_entries m = m.
Proof. intros HS. unfold map_from_entries. apply (fold_insert_sorted m []). exact HS. Qed.

Lemma normalize_value_wf (v : Value) : wf_value v -> normalize_value v = v.
Proof.
  revert v. refine (value_ind' _ _ _ _ _ _ _); try (intros; reflexivity).
  - intros l IH Hwf. simpl. f_equal.
    induction l as [|x r IHl]; [reflexivity|].
    inversion IH; subst. destruct Hwf as [Hx Hr]. simpl. f_equal; auto.
  - intros m IH [HS Hm]. simpl.
    assert (E : map (fun kv => (fst kv, normalize_value (snd kv))) m = m).
    { clear HS. induction m as [|[k v] r IHm]; [reflexivity|].
      inversion IH; subst. destruct Hm as [Hv Hr]. simpl in *. f_equal; auto.
      rewrite H1; auto. }
    rewrite E, (map_from_entries_sorted m HS), (map_from_entries_sorted m HS). reflexivity.
Qed.

Lemma map_get_insert_ne (k k' : string) (v : Value) (m : Map) :
  String.eqb k k' = false -> map_get k (map_insert k' v m) = map_get k m.
Proof. intros H. rewrite map_get_insert, H. reflexivity. Qed.

Lemma map_get_insert_eq (k : string) (v : Value) (m : Map) :
  map_get k (map_insert k v m) = Some v.
Proof. rewrite map_get_insert, String.eqb_refl. reflexivity. Qed.

Lemma default_object_get_ne (k k' : string) (m : Map) :
  String.eqb k' k = false -> map_get k' (default_object k m) = map_get k' m.
Proof.
  intros H. unfold default_object. destruct (is_some_and _ _); [reflexivity|].
  apply map_get_insert_ne; exact H.
Qed.

Ltac lookups_ne :=
  rewrite ?map_get_insert_eq; repeat (rewrite map_get_insert_ne by reflexivity).

Lemma validate_root_default_object (key : string) (root : Map) (strict : bool) :
  In key ["app_specific_settings"; "meta"; "extensions"] ->
  optional_object (map_get key root) = true ->
  validate_root (default_object key root) strict = validate_root root strict.
Proof.
  intros Hk Ho. unfold default_object.
  destruct (map_get key root) as [v|] eqn:E.
  - destruct v; try discriminate Ho. reflexivity.
  - simpl. destruct Hk as [<-|[<-|[<-|[]]]]; unfold validate_root; lookups_ne; rewrite E;
      destruct (validate_schema _) as [se ver];
      destruct (opt_str_eqb ver SCHEMA_VERSION_V2 && is_some_and ver known_version)%bool;
      destruct strict; reflexivity.
Qed.

(** C2 (amended): for every well-formed card whose [app_specific_settings],
    [meta] and [extensions] are each absent or an object, validating the
    normalized card gives the same result as validating the card. *)
Theorem normalize_preserves_validation (D : Value) (strict : bool) :
  wf_value D ->
  optional_object (get "app_specific_settings" D) = true ->
  optional_object (get "meta" D) = true ->
  optional_object (get "extensions" D) = true ->
  validate_uec (normalize_uec D) strict = validate_uec D strict.
Proof.
  intros Hwf Ha Hm He. unfold normalize_uec. rewrite (normalize_value_wf D Hwf).
  destruct D as [| | | | |root]; try reflexivity. simpl in Ha, Hm, He.
  unfold validate_uec.
  rewrite validate_root_default_object
    by (simpl; auto; rewrite !default_object_get_ne by reflexivity; exact He).
  rewrite validate_root_default_object
    by (simpl; auto; rewrite default_object_get_ne by reflexivity; exact Hm).
  rewrite validate_root_default_object by (simpl; auto).
  reflexivity.
Qed.

Lemma normalize_preserves_validation_witness :
  wf_value example_v1_card /\
  validate_uec (normalize_uec example_v1_card) true = validate_uec example_v1_card true.
Proof.
  assert (W : wf_value example_v1_card) by (simpl; repeat (split || constructor)).
  split; [exact W|].
  apply normalize_preserves_validation; [exact W|reflexivity|reflexivity|reflexivity].
Defined.

Lemma normalize_validation_counterexample :
  ok (validate_uec example_meta_null_card false) = false /\
  ok (validate_uec (normalize_uec example_meta_null_card) false) = true.
Proof. split; vm_compute; reflexivity. Qed.
Lemma validate_schema_version (schema : Map) :
  snd (validate_schema (Some (Object schema))) = opt_bind (map_get "version" schema) as_str.
Proof. reflexivity. Qed.

Lemma validate_schema_errors (schema : Map) (v : string) :
  map_get "version" schema = Some (Str v) ->
  fst (validate_schema (Some (Object schema))) =
    schema_name_errors schema
    ++ (if negb (known_version v) then [unknown_version_error v] else [])
    ++ schema_compat_errors schema.
Proof. intros H. unfold validate_schema. rewrite H. reflexivity. Qed.

Lemma validate_payload_unknown (kind : option Value) (p : Value) (v : string) (s : bool) :
  known_version v = false -> validate_payload p kind (Some v) s = [].
Proof. intros H. unfold validate_payload. simpl. rewrite H. reflexivity. Qed.

Lemma validate_root_unknown (root schema : Map) (v : string) (s : bool) :
  map_get "schema" root = Some (Object schema) -> map_get "version" schema = Some (Str v) ->
  known_version v = false ->
  validate_root root s =
    fst (validate_schema (Some (Object schema)))
    ++ validate_kind (map_get "kind" root)
    ++ payload_object_errors (map_get "payload" root)
    ++ validate_app_specific_settings (map_get "app_specific_settings" root)
    ++ validate_meta (map_get "meta" root)
    ++ validate_extensions (map_get "extensions" root).
Proof.
  intros Hs Hv Hk. unfold validate_root. rewrite Hs.
  pose proof (validate_schema_version schema) as E. rewrite Hv in E.
  destruct (validate_schema (Some (Object schema))) as [se ver]. simpl in E |- *. subst ver.
  assert (Hv2 : String.eqb v SCHEMA_VERSION_V2 = false).
  { unfold known_version in Hk. apply orb_false_iff in Hk. tauto. }
  simpl. rewrite Hv2, Hk. simpl.
  do 2 f_equal. unfold payload_object_errors.
  destruct (map_get "payload" root) as [p|]; [|reflexivity].
  simpl. destruct (is_object p); [|reflexivity].
  rewrite validate_payload_unknown by exact Hk. reflexivity.
Qed.

Lemma validate_root_parts (root : Map) (s : bool) :
  validate_root root s =
    let r := validate_schema (map_get "schema" root) in
    fst r
    ++ validate_kind (map_get "kind" root)
    ++ (match map_get "payload" root with
        | Some payload =>
            if is_object payload then validate_payload payload (map_get "kind" root) (snd r) s
            else push_error "payload" "must be an object"
        | None => push_error "payload" "must be an object"
        end)
    ++ validate_app_specific_settings (map_get "app_specific_settings" root)
    ++ (if opt_str_eqb (snd r) SCHEMA_VERSION_V2 && is_some_and (snd r) known_version
        then validate_meta_v2 (map_get "meta" root) s
        else validate_meta (map_get "meta" root))
    ++ validate_extensions (map_get "extensions" root).
Proof. unfold validate_root. destruct (validate_schema _); reflexivity. Qed.

Lemma schema_parts_insert_version (schema : Map) (x : string) :
  schema_name_errors (map_insert "version" (Str x) schema) = schema_name_errors schema /\
  schema_compat_errors (map_insert "version" (Str x) schema) = schema_compat_errors schema.
Proof.
  unfold schema_name_errors, schema_compat_errors.
  rewrite !map_get_insert_ne by reflexivity. split; reflexivity.
Qed.

Lemma validate_root_known_ok (root schema : Map) (x : string) (s : bool) :
  map_get "schema" root = Some (Object schema) -> known_version x = true ->
  validate_root (map_insert "schema" (Object (map_insert "version" (Str x) schema)) root) s = [] ->
  schema_name_errors schema = [] /\ schema_compat_errors schema = [] /\
  validate_kind (map_get "kind" root) = [] /\
  payload_object_errors (map_get "payload" root) = [] /\
  validate_app_specific_settings (map_get "app_specific_settings" root) = [] /\
  validate_meta (map_get "meta" root) = [] /\
  validate_extensions (map_get "extensions" root) = [].
Proof.
  intros Hs Hx H. rewrite validate_root_parts in H. cbv zeta in H.
  rewrite map_get_insert_eq in H. rewrite !map_get_insert_ne in H by reflexivity.
  rewrite (validate_schema_errors _ x) in H by apply map_get_insert_eq.
  rewrite validate_schema_version, map_get_insert_eq in H. simpl opt_bind in H.
  destruct (schema_parts_insert_version schema x) as [N C]. rewrite N, C, Hx in H. simpl in H.
  apply app_eq_nil in H as [Hsc H]. apply app_eq_nil in Hsc as [Hn Hc].
  apply app_eq_nil in H as [Hkind H]. apply app_eq_nil in H as [Hp H].
  apply app_eq_nil in H as [Ha H]. apply app_eq_nil in H as [Hm He].
  repeat split; try assumption.
  - unfold payload_object_errors. destruct (map_get "payload" root) as [p|]; [|discriminate Hp].
    simpl. destruct (is_object p); [reflexivity|discriminate Hp].
  - destruct (_ && _)%bool; [|exact Hm]. unfold validate_meta_v2 in Hm.
    apply app_eq_nil in Hm as [Hm _]. exact Hm.
Qed.

Lemma schema_version_object (root : Map) (v : string) :
  schema_version (Object root) = Some v ->
  exists schema, map_get "schema" root = Some (Object schema) /\ map_get "version" schema = Some (Str v).
Proof.
  unfold schema_version. simpl.
  destruct (map_get "schema" root) as [[| | | | |schema]|]; simpl; try discriminate.
  destruct (map_get "version" schema) as [[| | | | |]|] eqn:Ev; simpl; try discriminate.
  intros H; injection H as <-. eexists; split; [reflexivity|exact Ev].
Qed.

(** C1: for a card whose [schema.version] is a string that is neither "1.0"
    nor "2.0", [validate_root] runs the schema, kind, payload-is-an-object,
    [app_specific_settings], v1 [meta] and [extensions] checks and no payload
    validator, and its errors contain the unknown-version error.  When the
    same card is valid under version "1.0" or "2.0", validation fails with
    that single error. *)
Theorem unknown_version_validation :
  (forall (root schema : Map) (v : string) (s : bool),
     map_get "schema" root = Some (Object schema) -> map_get "version" schema = Some (Str v) ->
     known_version v = false ->
     validate_root root s =
       fst (validate_schema (Some (Object schema)))
       ++ validate_kind (map_get "kind" root)
       ++ payload_object_errors (map_get "payload" root)
       ++ validate_app_specific_settings (map_get "app_specific_settings" root)
       ++ validate_meta (map_get "meta" root)
       ++ validate_extensions (map_get "extensions" root)
     /\ In (unknown_version_error v) (validate_root root s)) /\
  (forall (D : Value) (v : string) (s : bool),
     schema_version D = Some v -> known_version v = false ->
     ok (validate_uec (with_version D SCHEMA_VERSION) s) = true
     \/ ok (validate_uec (with_version D SCHEMA_VERSION_V2) s) = true ->
     validate_uec D s = {| ok := false; errors := [unknown_version_error v] |}).
Proof.
  split.
  - intros root schema v s Hs Hv Hk. rewrite (validate_root_unknown root schema v s Hs Hv Hk).
    split; [reflexivity|]. rewrite (validate_schema_errors schema v Hv), Hk.
    apply in_or_app. left. apply in_or_app. right. apply in_or_app. left. left. reflexivity.
  - intros D v s HD Hk Hok.
    destruct D as [| | | | |root]; try discriminate HD.
    destruct (schema_version_object root v HD) as [schema [Hs Hv]].
    assert (Parts : exists x, known_version x = true /\
      validate_root (map_insert "schema" (Object (map_insert "version" (Str x) schema)) root) s = []).
    { unfold with_version in Hok. rewrite Hs in Hok. simpl in Hok.
      destruct Hok as [Hok|Hok]; [exists SCHEMA_VERSION|exists SCHEMA_VERSION_V2];
        (split; [reflexivity|]);
        (destruct (validate_root _ s); [reflexivity|discriminate Hok]). }
    destruct Parts as [x [Hx Hr]].
    destruct (validate_root_known_ok root schema x s Hs Hx Hr) as (Hn & Hc & Hkd & Hp & Ha & Hm & He).
    unfold validate_uec. rewrite (validate_root_unknown root schema v s Hs Hv Hk).
    rewrite (validate_schema_errors schema v Hv), Hk, Hn, Hc, Hkd, Hp, Ha, Hm, He. reflexivity.
Qed.

Lemma unknown_version_validation_witness :
  validate_uec example_unknown_version_card false =
    {| ok := false; errors := [unknown_version_error "9.9"] |}.
Proof.
  apply (proj2 unknown_version_validation example_unknown_version_card "9.9" false);
    [reflexivity|reflexivity|left; vm_compute; reflexivity].
Defined.

Ltac other_keys :=
  repeat first [ rewrite map_get_insert_ne by reflexivity
               | rewrite map_get_remove_ne by reflexivity ].

Lemma v1_scenes_rules (p : Map) : map_get "rules" (v1_scenes p) = map_get "rules" p.
Proof.
  unfold v1_scenes. destruct (map_get "scene" p) as [scene|]; [|reflexivity].
  destruct scene as [| | | | |sm]; other_keys; try reflexivity.
  destruct (map_get "id" _); other_keys; reflexivity.
Qed.

Lemma remove_fields_get (k : string) (fields : list string) :
  ~ In k fields -> forall (acc : Map * list string),
  map_get k (fst (fold_left
    (fun (acc : Map * list string) (field : string) =>
       let (payload, warnings) := acc in
       match map_get field payload with
       | Some _ =>
           (map_remove field payload,
            warnings ++ ["payload." +++ field +++ " is not supported in v1 and was removed"])
       | None => (payload, warnings)
       end) fields acc)) = map_get k (fst acc).
Proof.
  induction fields as [|f r IH]; intros Hn [m w]; [reflexivity|].
  simpl. rewrite IH by (intros H; apply Hn; right; exact H).
  destruct (map_get f m); [|reflexivity]. simpl.
  apply map_get_remove_ne. apply String.eqb_neq. intros ->. apply Hn. left; reflexivity.
Qed.

Lemma downgrade_payload_rules (p : Map) (keep_rules : bool) :
  map_get "rules" (fst (downgrade_payload p keep_rules)) =
    if negb keep_rules && negb (map_contains_key "rules" p) then Some (Array [])
    else map_get "rules" p.
Proof.
  unfold downgrade_payload.
  assert (E : forall q, map_get "rules" q = map_get "rules" p ->
    map_get "rules" (fst (remove_fields q)) = map_get "rules" p).
  { intros q Hq. unfold remove_fields.
    rewrite (remove_fields_get "rules" removed_fields) by (simpl; intuition discriminate).
    exact Hq. }
  assert (Hs : map_get "rules" (v1_scenes p) = map_get "rules" p) by apply v1_scenes_rules.
  destruct (match map_get "promptTemplateId" (v1_scenes p) with
            | Some _ => _ | None => _ end) as [q w1] eqn:Eq.
  assert (Hq : map_get "rules" q = map_get "rules" p).
  { destruct (map_get "promptTemplateId" (v1_scenes p)) as [t|];
      injection Eq as <- <-; [|exact Hs].
    destruct (match map_get "systemPrompt" _ with None => true | Some v => is_null v end);
      [destruct (as_str t)|]; other_keys; exact Hs. }
  pose proof (E q Hq) as Hr.
  destruct (remove_fields q) as [q' w2]. simpl in Hr |- *.
  unfold map_contains_key in *. rewrite Hr.
  destruct keep_rules; simpl; [exact Hr|].
  destruct (map_get "rules" p); simpl; [exact Hr|]. apply map_get_insert_eq.
Qed.

Lemma downgrade_v2_payload (root p : Map) (keep_rules : bool) :
  schema_version (Object root) = Some SCHEMA_VERSION_V2 ->
  map_get "payload" root = Some (Object p) ->
  exists dr, downgrade_uec (Object root) SCHEMA_VERSION keep_rules = Ok dr /\
    get "payload" (card dr) = Some (Object (fst (downgrade_payload p keep_rules))).
Proof.
  intros Hv Hp. unfold downgrade_uec. rewrite Hv.
  change (String.eqb SCHEMA_VERSION SCHEMA_VERSION) with true.
  change (String.eqb SCHEMA_VERSION_V2 SCHEMA_VERSION) with false.
  change (String.eqb SCHEMA_VERSION_V2 SCHEMA_VERSION_V2) with true.
  cbv beta iota. simpl negb. cbv beta iota.
  match goal with |- context [match map_get "payload" ?r with _ => _ end] =>
    assert (Hp1 : map_get "payload" r = Some (Object p)) end.
  { destruct (map_get "schema" root) as [[| | | | |sm]|]; other_keys; exact Hp. }
  rewrite Hp1. destruct (downgrade_payload p keep_rules) as [q w] eqn:Ed. simpl fst.
  match goal with |- context [match map_get "meta" ?r with _ => _ end] =>
    destruct (map_get "meta" r) as [[| | | | |mm]|] end;
  try (eexists; split; [reflexivity|]; simpl; apply map_get_insert_eq).
  destruct (remove_meta_field _ _) as [mm' w2].
  eexists; split; [reflexivity|]. simpl. other_keys. apply map_get_insert_eq.
Qed.

(** C8 (amended): downgrading a v2 card with an object payload succeeds, and
    the downgraded payload's [rules] is the empty array when [keep_rules] is
    false and the payload has no [rules] key; otherwise it is the payload's
    own [rules] (absent stays absent). *)
Theorem downgrade_rules (root p : Map) (keep_rules : bool) :
  schema_version (Object root) = Some SCHEMA_VERSION_V2 ->
  map_get "payload" root = Some (Object p) ->
  exists dr, downgrade_uec (Object root) SCHEMA_VERSION keep_rules = Ok dr /\
    at_path (card dr) ["payload"; "rules"] =
      if negb keep_rules && negb (map_contains_key "rules" p) then Some (Array [])
      else map_get "rules" p.
Proof.
  intros Hv Hp. destruct (downgrade_v2_payload root p keep_rules Hv Hp) as [dr [Hd Hg]].
  exists dr. split; [exact Hd|].
  destruct (card dr) as [| | | | |c]; try discriminate Hg. simpl in Hg |- *.
  rewrite Hg. simpl. rewrite downgrade_payload_rules.
  destruct (_ && _)%bool; [reflexivity|]. destruct (map_get "rules" p); reflexivity.
Qed.

Lemma downgrade_rules_counterexample :
  match downgrade_uec example_v2_rules_card SCHEMA_VERSION false with
  | Ok dr => at_path (card dr) ["payload"; "rules"] = Some (Array [Str "x"])
  | Err _ => False
  end.
Proof. vm_compute. reflexivity. Qed.

Lemma downgrade_rules_witness :
  exists dr, downgrade_uec (Object example_v2_root) SCHEMA_VERSION false = Ok dr /\
    at_path (card dr) ["payload"; "rules"] =
      if negb false && negb (map_contains_key "rules" example_v2_payload) then Some (Array [])
      else map_get "rules" example_v2_payload.
Proof.
  apply (downgrade_rules example_v2_root example_v2_payload false); vm_compute; reflexivity.
Defined.
Lemma merge_self_and_base_witness :
  at_path (value (merge_uec example_merge_base example_merge_incoming base_options)) ["a"]
    = Some (Str "x") /\
  at_path (value (merge_uec example_merge_base example_merge_incoming base_options)) ["b"]
    = Some (Array [Bool true]).
Proof.
  split.
  - apply (proj1 (proj2 merge_self_and_base example_merge_base example_merge_incoming ["a"]
                    (Str "x") (Str "y") eq_refl eq_refl)); reflexivity.
  - apply (proj2 (proj2 merge_self_and_base example_merge_base example_merge_incoming ["b"]
                    (Array [Null]) (Array [Bool true]) eq_refl eq_refl)); reflexivity.
Defined.

Lemma merge_null_and_omitted_keys_witness :
  exists merged,
    fst (merge_values (Object [("a", Number (PosInt 1)); ("b", Str "x")]) (Object [("b", Str "y")])
           EmptyString base_options []) = Object merged /\
    map_get "a" merged = Some (Number (PosInt 1)).
Proof.
  apply (proj2 merge_null_and_omitted_keys); reflexivity.
Defined.

Lemma convert_v1_payload (root p : Map) :
  ok (validate_uec (Object root) false) = true ->
  schema_version (Object root) = Some SCHEMA_VERSION ->
  map_get "payload" root = Some (Object p) ->
  exists out, convert_uec_v1_to_v2 (Object root) = Ok out /\
    get "payload" out = Some (Object (convert_payload p)).
Proof.
  intros Hok Hv Hp. unfold convert_uec_v1_to_v2. rewrite Hok, Hv.
  change (negb (is_object (Object root))) with false.
  change (String.eqb SCHEMA_VERSION SCHEMA_VERSION) with true. cbv beta iota. simpl negb.
  cbv beta iota.
  match goal with |- context [match map_get "payload" ?r with _ => _ end] =>
    assert (Hp1 : map_get "payload" r = Some (Object p)) end.
  { destruct (map_get "schema" root) as [[| | | | |sm]|]; other_keys; exact Hp. }
  rewrite Hp1. eexists; split; [reflexivity|]. simpl. other_keys. apply map_get_insert_eq.
Qed.

Lemma convert_payload_scenario (p sc : Map) :
  StronglySorted key_lt p ->
  map_get "scenes" p = Some (Array [Object sc]) ->
  map_get "id" sc = Some (Str "scene-1") ->
  map_get "selectedVariantId" sc = Some Null ->
  map_get "defaultSceneId" p = Some (Str "scene-1") ->
  map_get "systemPrompt" p = Some (Str "_ID:template-1") ->
  converted_scenario (convert_payload p).
Proof.
  intros HS Hsc Hid Hsel Hdef Hsp. unfold convert_payload.
  pose proof (map_remove_sorted "rules" p HS) as S1.
  set (p1 := map_remove "rules" p) in *.
  assert (Hsc1 : map_get "scenes" p1 = Some (Array [Object sc])) by (subst p1; other_keys; exact Hsc).
  assert (Hdef1 : map_get "defaultSceneId" p1 = Some (Str "scene-1")) by (subst p1; other_keys; exact Hdef).
  assert (Hsp1 : map_get "systemPrompt" p1 = Some (Str "_ID:template-1")) by (subst p1; other_keys; exact Hsp).
  assert (Hr1 : map_get "rules" p1 = None) by (apply map_get_remove_same; exact HS).
  clearbody p1.
  rewrite Hsc1. simpl is_empty. cbv beta iota. simpl negb. cbv beta iota.
  assert (Hpick : pick_scene p1 [Object sc] = Some (Object sc)).
  { unfold pick_scene. rewrite Hdef1. simpl. rewrite Hid. reflexivity. }
  rewrite Hpick.
  assert (Hv2 : map_get "selectedVariant" (v2_scene sc) = Some (Number (PosInt 0))).
  { unfold v2_scene. rewrite Hsel. simpl. apply map_get_insert_eq. }
  set (s := v2_scene sc) in *. clearbody s.
  pose proof (map_insert_sorted "scene" (Object s) p1 S1) as S2.
  pose proof (map_remove_sorted "scenes" _ S2) as S3.
  set (p3 := map_remove "scenes" (map_insert "scene" (Object s) p1)) in *.
  assert (Hsp3 : map_get "systemPrompt" p3 = Some (Str "_ID:template-1")) by (subst p3; other_keys; exact Hsp1).
  assert (Hr3 : map_get "rules" p3 = None) by (subst p3; other_keys; exact Hr1).
  assert (Hs3 : map_get "scenes" p3 = None) by (apply map_get_remove_same; exact S2).
  assert (Hscene3 : map_get "scene" p3 = Some (Object s)) by (subst p3; other_keys; apply map_get_insert_eq).
  clearbody p3.
  pose proof (map_get_remove_same "defaultSceneId" p3 S3) as Hd4.
  set (p4 := map_remove "defaultSceneId" p3) in *.
  assert (Hsp4 : map_get "systemPrompt" p4 = Some (Str "_ID:template-1")) by (subst p4; other_keys; exact Hsp3).
  assert (Hr4 : map_get "rules" p4 = None) by (subst p4; other_keys; exact Hr3).
  assert (Hs4 : map_get "scenes" p4 = None) by (subst p4; other_keys; exact Hs3).
  assert (Hscene4 : map_get "scene" p4 = Some (Object s)) by (subst p4; other_keys; exact Hscene3).
  clearbody p4.
  rewrite Hsp4. simpl strip_prefix. cbv beta iota.
  constructor; other_keys; auto.
  - simpl. other_keys. rewrite Hscene4. simpl. rewrite Hv2. reflexivity.
  - apply map_get_insert_eq.
  - apply map_get_insert_eq.
Qed.

Lemma wf_map_get (m : Map) (k : string) (v : Value) :
  wf_value (Object m) -> map_get k m = Some v -> wf_value v.
Proof.
  intros [_ Hm]. induction m as [|[k0 v0] r IH]; simpl; [discriminate|].
  destruct Hm as [H0 Hr]. destruct (String.eqb k k0).
  - intros E; injection E as <-; exact H0.
  - apply IH; exact Hr.
Qed.

(** C5: converting a valid well-formed v1 card whose payload has a single
    scene with id "scene-1" and a null [selectedVariantId], [defaultSceneId]
    "scene-1" and [systemPrompt] "_ID:template-1" succeeds; the converted
    payload has no [rules], [scenes] or [defaultSceneId], its
    [scene.selectedVariant] is the number 0, its [promptTemplateId] is
    "template-1" and its [systemPrompt] is null. *)
Theorem convert_v1_scenario (root p sc : Map) :
  wf_value (Object root) ->
  ok (validate_uec (Object root) false) = true ->
  schema_version (Object root) = Some SCHEMA_VERSION ->
  map_get "payload" root = Some (Object p) ->
  map_get "scenes" p = Some (Array [Object sc]) ->
  map_get "id" sc = Some (Str "scene-1") ->
  map_get "selectedVariantId" sc = Some Null ->
  map_get "defaultSceneId" p = Some (Str "scene-1") ->
  map_get "systemPrompt" p = Some (Str "_ID:template-1") ->
  exists out q,
    convert_uec_v1_to_v2 (Object root) = Ok out /\
    get "payload" out = Some (Object q) /\
    map_get "rules" q = None /\ map_get "scenes" q = None /\ map_get "defaultSceneId" q = None /\
    at_path (Object q) ["scene"; "selectedVariant"] = Some (Number (PosInt 0)) /\
    map_get "promptTemplateId" q = Some (Str "template-1") /\
    map_get "systemPrompt" q = Some Null.
Proof.
  intros Hwf Hok Hv Hp Hsc Hid Hsel Hdef Hsp.
  destruct (convert_v1_payload root p Hok Hv Hp) as [out [Hc Hg]].
  assert (HS : StronglySorted key_lt p) by (exact (proj1 (wf_map_get root "payload" _ Hwf Hp))).
  destruct (convert_payload_scenario p sc HS Hsc Hid Hsel Hdef Hsp) as [A B C D E F].
  exists out, (convert_payload p). repeat split; assumption.
Qed.

Lemma convert_v1_scenario_witness :
  map_get "rules" example_v1_payload = Some (Array [Str "r1"]) /\
  map_get "content" example_v1_scene = Some (Str "hello") /\
  exists out q,
    convert_uec_v1_to_v2 (Object example_v1_root) = Ok out /\
    get "payload" out = Some (Object q) /\
    map_get "rules" q = None /\ map_get "scenes" q = None /\ map_get "defaultSceneId" q = None /\
    at_path (Object q) ["scene"; "selectedVariant"] = Some (Number (PosInt 0)) /\
    map_get "promptTemplateId" q = Some (Str "template-1") /\
    map_get "systemPrompt" q = Some Null.
Proof.
  split; [reflexivity|]. split; [reflexivity|].
  apply (convert_v1_scenario example_v1_root example_v1_payload example_v1_scene);
    try (vm_compute; reflexivity).
  simpl. repeat (split || constructor).
Defined.

Lemma convert_v1_shape (root : Map) :
  ok (validate_uec (Object root) false) = true ->
  schema_version (Object root) = Some SCHEMA_VERSION ->
  exists root', convert_uec_v1_to_v2 (Object root) = Ok (Object root') /\
    schema_version (Object root') = Some SCHEMA_VERSION_V2 /\
    (forall p, map_get "payload" root = Some (Object p) ->
       map_get "payload" root' = Some (Object (convert_payload p))).
Proof.
  intros Hok Hv. pose proof (schema_version_object root _ Hv) as [schema [Hs Hsv]].
  unfold convert_uec_v1_to_v2. rewrite Hok, Hv.
  change (negb (is_object (Object root))) with false.
  change (String.eqb SCHEMA_VERSION SCHEMA_VERSION) with true. cbv beta iota. simpl negb.
  cbv beta iota. rewrite Hs.
  set (r1 := map_insert "schema" (Object (map_insert "version" (Str SCHEMA_VERSION_V2) schema)) root).
  assert (Hs1 : schema_version (Object r1) = Some SCHEMA_VERSION_V2).
  { unfold schema_version; simpl. subst r1. rewrite map_get_insert_eq. simpl.
    rewrite map_get_insert_eq. reflexivity. }
  assert (Hp1 : map_get "payload" r1 = map_get "payload" root) by (subst r1; other_keys; reflexivity).
  clearbody r1.
  destruct (map_get "payload" r1) as [[| | | | |p]|] eqn:Ep;
    eexists; (split; [reflexivity|]); split;
    try (unfold schema_version in *; simpl in *; other_keys; exact Hs1);
    intros p' Hp'; rewrite Hp' in Hp1; try discriminate Hp1.
  injection Hp1 as <-. simpl. other_keys. apply map_get_insert_eq.
Qed.

Lemma downgrade_v2_shape (root : Map) (keep_rules : bool) :
  schema_version (Object root) = Some SCHEMA_VERSION_V2 ->
  exists dr, downgrade_uec (Object root) SCHEMA_VERSION keep_rules = Ok dr /\
    schema_version (card dr) = Some SCHEMA_VERSION /\
    (forall p, map_get "payload" root = Some (Object p) ->
       get "payload" (card dr) = Some (Object (fst (downgrade_payload p keep_rules)))).
Proof.
  intros Hv. pose proof (schema_version_object root _ Hv) as [schema [Hs Hsv]].
  unfold downgrade_uec. rewrite Hv.
  change (String.eqb SCHEMA_VERSION SCHEMA_VERSION) with true.
  change (String.eqb SCHEMA_VERSION_V2 SCHEMA_VERSION) with false.
  change (String.eqb SCHEMA_VERSION_V2 SCHEMA_VERSION_V2) with true.
  cbv beta iota. simpl negb. cbv beta iota. rewrite Hs.
  set (r1 := map_insert "schema" (Object (map_insert "version" (Str SCHEMA_VERSION) schema)) root).
  assert (Hs1 : map_get "schema" r1 = Some (Object (map_insert "version" (Str SCHEMA_VERSION) schema)))
    by apply map_get_insert_eq.
  assert (Hp1 : map_get "payload" r1 = map_get "payload" root) by (subst r1; other_keys; reflexivity).
  clearbody r1.
  destruct (map_get "payload" r1) as [[| | | | |p]|] eqn:Ep;
    [..| destruct (downgrade_payload p keep_rules) as [q w] eqn:Ed |];
    match goal with |- context [match map_get "meta" ?r with _ => _ end] =>
      destruct (map_get "meta" r) as [[| | | | |m]|] end;
    try destruct (remove_meta_field _ _);
    (eexists; split; [reflexivity|]; split;
     [ unfold schema_version; simpl; other_keys; rewrite Hs1; simpl;
       rewrite map_get_insert_eq; reflexivity
     | intros p' Hp'; rewrite Hp' in Hp1; try discriminate Hp1; injection Hp1 as ->;
       simpl; other_keys; rewrite Ed; apply map_get_insert_eq ]).
Qed.

Lemma pick_scene_single (payload : Map) (x : Value) : pick_scene payload [x] = Some x.
Proof.
  unfold pick_scene. destruct (opt_bind (map_get "defaultSceneId" payload) as_str); [|reflexivity].
  simpl. destruct (opt_str_eqb _ _); reflexivity.
Qed.

Lemma v2_scene_id (sm : Map) : map_get "id" (v2_scene sm) = map_get "id" sm.
Proof.
  unfold v2_scene. destruct (map_get "selectedVariantId" sm); [|reflexivity].
  destruct (is_null _); other_keys; reflexivity.
Qed.

Lemma convert_payload_single_scene (p sm : Map) :
  map_get "scenes" p = Some (Array [Object sm]) ->
  exists s, map_get "scene" (convert_payload p) = Some (Object s) /\ map_get "id" s = map_get "id" sm.
Proof.
  intros Hsc. exists (v2_scene sm). split; [|apply v2_scene_id].
  unfold convert_payload. rewrite (map_get_remove_ne "scenes" "rules") by reflexivity. rewrite Hsc.
  simpl is_empty. cbv beta iota. simpl negb. cbv beta iota. rewrite pick_scene_single.
  destruct (map_get "systemPrompt" _) as [[| | | sp | |]|]; other_keys;
    try (destruct (strip_prefix _ sp); other_keys); apply map_get_insert_eq.
Qed.

Lemma downgrade_payload_scenes (q : Map) (keep_rules : bool) :
  map_get "scenes" (fst (downgrade_payload q keep_rules)) = map_get "scenes" (v1_scenes q).
Proof.
  unfold downgrade_payload.
  destruct (match map_get "promptTemplateId" (v1_scenes q) with
            | Some _ => _ | None => _ end) as [q1 w1] eqn:Eq.
  assert (H1 : map_get "scenes" q1 = map_get "scenes" (v1_scenes q)).
  { destruct (map_get "promptTemplateId" (v1_scenes q)) as [t|];
      injection Eq as <- <-; [|reflexivity].
    destruct (match map_get "systemPrompt" _ with None => true | Some v => is_null v end);
      [destruct (as_str t)|]; other_keys; reflexivity. }
  assert (H2 : map_get "scenes" (fst (remove_fields q1)) = map_get "scenes" q1).
  { unfold remove_fields.
    apply (remove_fields_get "scenes" removed_fields); simpl; intuition discriminate. }
  destruct (remove_fields q1) as [q2 w2]. simpl in H2 |- *.
  destruct (_ && _)%bool; other_keys; congruence.
Qed.

Lemma v1_scenes_single (q s : Map) :
  map_get "scene" q = Some (Object s) ->
  exists s', map_get "scenes" (v1_scenes q) = Some (Array [Object s']) /\ map_get "id" s' = map_get "id" s.
Proof.
  intros H. unfold v1_scenes. rewrite H.
  assert (Hs : exists s', (match map_get "selectedVariant" s with
            | Some selected =>
                if is_zero_number selected then map_insert "selectedVariantId" Null (map_remove "selectedVariant" s)
                else map_insert "selectedVariantId" selected (map_remove "selectedVariant" s)
            | None => s
            end) = s' /\ map_get "id" s' = map_get "id" s).
  { eexists; split; [reflexivity|].
    destruct (map_get "selectedVariant" s); [|reflexivity].
    destruct (is_zero_number _); other_keys; reflexivity. }
  destruct Hs as [s' [Es Hid]]. simpl. rewrite Es. exists s'. split; [|exact Hid].
  destruct (map_get "id" s'); other_keys; apply map_get_insert_eq.
Qed.

(** C4: for a valid v1 card, conversion to v2 and downgrade back to v1 both
    succeed and the result has [schema.version] "1.0"; when the payload had
    exactly one scene, given as an object, the result's payload has exactly
    one scene and it has the same [id]. *)
Theorem convert_downgrade_roundtrip (root : Map) (keep_rules : bool) :
  ok (validate_uec (Object root) false) = true ->
  schema_version (Object root) = Some SCHEMA_VERSION ->
  exists out dr,
    convert_uec_v1_to_v2 (Object root) = Ok out /\
    downgrade_uec out SCHEMA_VERSION keep_rules = Ok dr /\
    schema_version (card dr) = Some SCHEMA_VERSION /\
    (forall p sm, map_get "payload" root = Some (Object p) ->
       map_get "scenes" p = Some (Array [Object sm]) ->
       exists sm', at_path (card dr) ["payload"; "scenes"] = Some (Array [Object sm']) /\
                   map_get "id" sm' = map_get "id" sm).
Proof.
  intros Hok Hv.
  destruct (convert_v1_shape root Hok Hv) as [root' [Hc [Hv2 Hp']]].
  destruct (downgrade_v2_shape root' keep_rules Hv2) as [dr [Hd [Hs Hpd]]].
  exists (Object root'), dr. split; [exact Hc|]. split; [exact Hd|]. split; [exact Hs|].
  intros p sm Hp Hsc.
  pose proof (Hpd _ (Hp' p Hp)) as Hg.
  destruct (convert_payload_single_scene p sm Hsc) as [s [Hs1 Hid1]].
  destruct (v1_scenes_single _ _ Hs1) as [s' [Hs2 Hid2]].
  exists s'. split; [|congruence].
  destruct (card dr) as [| | | | |c]; try discriminate Hg. simpl in Hg |- *.
  rewrite Hg. simpl. rewrite downgrade_payload_scenes, Hs2. reflexivity.
Qed.

Lemma convert_downgrade_roundtrip_witness :
  exists out dr,
    convert_uec_v1_to_v2 (Object example_v1_root) = Ok out /\
    downgrade_uec out SCHEMA_VERSION false = Ok dr /\
    schema_version (card dr) = Some SCHEMA_VERSION /\
    (forall p sm, map_get "payload" example_v1_root = Some (Object p) ->
       map_get "scenes" p = Some (Array [Object sm]) ->
       exists sm', at_path (card dr) ["payload"; "scenes"] = Some (Array [Object sm']) /\
                   map_get "id" sm' = map_get "id" sm).
Proof.
  apply convert_downgrade_roundtrip; vm_compute; reflexivity.
Defined.
Lemma known_ids_absent (sel : string) (variants : list Value) :
  (forall v, In v variants -> variant_id v <> Some sel) ->
  existsb (String.eqb sel)
    (flat_map (fun variant =>
                 match opt_bind (opt_bind (as_object variant) (map_get "id")) as_str with
                 | Some id => [id]
                 | None => []
                 end) variants) = false.
Proof.
  induction variants as [|v r IH]; intros H; [reflexivity|].
  simpl. rewrite existsb_app. apply orb_false_iff. split.
  - pose proof (H v (or_introl eq_refl)) as Hv. unfold variant_id in Hv.
    destruct (opt_bind _ as_str) as [id|]; [|reflexivity].
    simpl. rewrite orb_false_r. apply String.eqb_neq. intros <-. apply Hv. reflexivity.
  - apply IH. intros v' Hin. apply H. right. exact Hin.
Qed.

(** C9 (amended): linting a v2 card whose payload has description " ",
    createdAt 20 and updatedAt 10, and whose scene has [selectedVariant]
    "missing" and a [variants] array with no variant of id "missing", with no
    meta createdAt/updatedAt inversion and no oversized inline asset, gives
    exactly the three warnings for the description, the payload inversion
    and the dangling [selectedVariant]. *)
Theorem lint_three_warnings (card : Value) (payload scene : Map) (variants : list Value) :
  get "payload" card = Some (Object payload) ->
  schema_version card = Some SCHEMA_VERSION_V2 ->
  map_get "description" payload = Some (Str " ") ->
  map_get "createdAt" payload = Some (Number (PosInt 20)) ->
  map_get "updatedAt" payload = Some (Number (PosInt 10)) ->
  map_get "scene" payload = Some (Object scene) ->
  map_get "selectedVariant" scene = Some (Str "missing") ->
  map_get "variants" scene = Some (Array variants) ->
  (forall v, In v variants -> variant_id v <> Some "missing") ->
  (forall meta, get "meta" card = Some (Object meta) ->
     inverted (opt_bind (map_get "createdAt" meta) as_i64)
              (opt_bind (map_get "updatedAt" meta) as_i64) = false) ->
  flat_map lint_asset (extract_assets card) = [] ->
  lint_uec card =
    {| lint_ok := false;
       lint_warnings := ["payload.description is an empty string";
                         "payload.createdAt is greater than payload.updatedAt";
                         "payload.scene.selectedVariant does not match any variant id"] |}.
Proof.
  intros Hp Hv Hd Hc Hu Hs Hsel Hvar Hids Hmeta Has.
  unfold lint_uec. rewrite Hp.
  change (opt_bind (Some (Object payload)) as_object) with (Some payload). cbv beta iota.
  rewrite Hd, Hc, Hu, Has.
  assert (Hm : match opt_bind (get "meta" card) as_object with
               | Some meta =>
                   if inverted (opt_bind (map_get "createdAt" meta) as_i64)
                               (opt_bind (map_get "updatedAt" meta) as_i64)
                   then ["meta.createdAt is greater than meta.updatedAt"] else []
               | None => []
               end = []).
  { destruct (get "meta" card) as [[| | | | |meta]|] eqn:E; try reflexivity.
    simpl. rewrite (Hmeta meta eq_refl). reflexivity. }
  rewrite Hm.
  assert (Hsc : lint_scene card payload = ["payload.scene.selectedVariant does not match any variant id"]).
  { unfold lint_scene. rewrite Hv. simpl opt_str_eqb. cbv beta iota.
    rewrite Hs. change (opt_bind (Some (Object scene)) as_object) with (Some scene). cbv beta iota.
    rewrite Hsel. change (opt_bind (Some (Str "missing")) as_str) with (Some "missing"). cbv beta iota.
    rewrite Hvar. change (opt_bind (Some (Array variants)) as_array) with (Some variants). cbv beta iota.
    rewrite known_ids_absent by exact Hids. reflexivity. }
  rewrite Hsc. reflexivity.
Qed.

Lemma lint_three_warnings_witness :
  lint_uec example_lint_card =
    {| lint_ok := false;
       lint_warnings := ["payload.description is an empty string";
                         "payload.createdAt is greater than payload.updatedAt";
                         "payload.scene.selectedVariant does not match any variant id"] |}.
Proof.
  apply (lint_three_warnings example_lint_card example_lint_payload example_lint_scene
           [Object [("id", Str "v1")]]); try reflexivity.
  - intros v [<-|[]]. vm_compute. discriminate.
  - intros meta H. discriminate H.
Defined.

Lemma lint_three_warnings_counterexample :
  lint_uec example_lint_card_no_variants =
    {| lint_ok := false;
       lint_warnings := ["payload.description is an empty string";
                         "payload.createdAt is greater than payload.updatedAt"] |}.
Proof. vm_compute. reflexivity. Qed.

(** ** Further properties of the diff, validator, upgrade, creation, merge, asset and downgrade code *)

Lemma value_eqb_eq (a b : Value) : value_eqb a b = true -> a = b.
Proof.
  revert b.
  induction a as [|x|x|x|items IH|m IH] using value_ind'; intros b H; destruct b as [|y|y|y|ys|ys]; simpl in H;
    try discriminate.
  - reflexivity.
  - apply Bool.eqb_prop in H. subst. reflexivity.
  - destruct x, y; simpl in H; try discriminate.
    + apply N.eqb_eq in H; subst; reflexivity.
    + apply Z.eqb_eq in H; subst; reflexivity.
    + apply Z.eqb_eq in H; subst; reflexivity.
  - apply String.eqb_eq in H. subst. reflexivity.
  - f_equal. revert ys H. induction IH as [|x r Hx _ IHr]; intros [|y ys] H; try discriminate.
    + reflexivity.
    + apply andb_prop in H as [H1 H2]. f_equal; auto.
  - f_equal. revert ys H. induction IH as [|[k x] r Hx _ IHr]; intros [|[k' y] ys] H;
      try discriminate.
    + reflexivity.
    + apply andb_prop in H as [H H2]. apply andb_prop in H as [H0 H1].
      apply String.eqb_eq in H0. simpl in Hx. subst. f_equal; auto. f_equal. auto.
Qed.

Lemma value_eqb_sym (a b : Value) : value_eqb a b = value_eqb b a.
Proof.
  destruct (value_eqb a b) eqn:E1, (value_eqb b a) eqn:E2; auto.
  - apply value_eqb_eq in E1. subst. rewrite value_eqb_refl in E2. discriminate.
  - apply value_eqb_eq in E2. subst. rewrite value_eqb_refl in E1. discriminate.
Qed.

Lemma walk_diff_equal (a b : Value) (p : string) : value_eqb a b = true -> walk_diff a b p = [].
Proof. intros H. destruct b; cbn [walk_diff]; rewrite H; reflexivity. Qed.

Lemma walk_diff_null_l (b : Value) (p : string) : walk_diff Null b p = leaf_diff Null b p.
Proof. destruct b; reflexivity. Qed.

Lemma walk_diff_null_r (a : Value) (p : string) : walk_diff a Null p = leaf_diff a Null p.
Proof. destruct a; reflexivity. Qed.

(** X3: an array compared with itself extended by [Null] items yields no entry: a missing array item is compared as [Null]. *)
Lemma walk_diff_trailing_null (l : list Value) (n : nat) (p : string) :
  walk_diff (Array l) (Array (l ++ repeat Null n)) p = [].
Proof.
  cbn [walk_diff]. destruct (value_eqb _ _); [reflexivity|].
  generalize 0. induction l as [|x l IH]; intros i; simpl.
  - revert i. induction n as [|n IHn]; intros i; simpl; auto.
  - rewrite walk_diff_equal by apply value_eqb_refl. simpl. apply IH.
Qed.

Lemma changed_entry_ok (a b : Value) (p : string) :
  value_eqb a b = false -> diff_entry_ok (changed_entry a b p).
Proof. intros H. right; right. split; [reflexivity|]. exists a, b. auto. Qed.

Lemma leaf_diff_ok (a b : Value) (p : string) : Forall diff_entry_ok (leaf_diff a b p).
Proof.
  unfold leaf_diff. destruct (value_eqb a b) eqn:E; auto.
  constructor; [apply changed_entry_ok; exact E | constructor].
Qed.

(** X1: every entry [walk_diff] reports is an [added] entry (no before, an after), a [removed] entry (a before, no after) or a [changed] entry whose before and after values differ. *)
Theorem walk_diff_entries_ok (a b : Value) (p : string) :
  Forall diff_entry_ok (walk_diff a b p).
Proof.
  revert a p.
  induction b as [| | | |rs IH|rm IH] using value_ind'; intros a p;
    cbn [walk_diff]; destruct (value_eqb a _) eqn:E; auto; destruct a as [| | | |ls|lm];
    try (constructor; [apply changed_entry_ok; exact E | constructor]).
  - clear E. generalize 0. revert ls. induction IH as [|r rs Hr _ IHr]; intros ls i.
    + revert i. induction ls as [|l ls IHl]; intros i; simpl; auto.
      apply Forall_app; split; [apply leaf_diff_ok | apply IHl].
    + destruct ls as [|l ls]; simpl; apply Forall_app; split; auto. apply leaf_diff_ok.
  - clear E. apply Forall_forall. intros e He. apply in_flat_map in He as [key [_ He]].
    revert He. destruct (map_get key lm) as [x|] eqn:L.
    + rewrite map_get_with_spec. destruct (map_get key rm) as [y|] eqn:R; simpl.
      * intros He. apply map_get_in in R. rewrite Forall_forall in IH.
        specialize (IH (key, y) R x (key_path p key)). rewrite Forall_forall in IH. auto.
      * intros [<-|[]]. right; left. simpl. eauto.
    + destruct (map_get key rm) as [y|] eqn:R; simpl; [|intros []].
      intros [<-|[]]. left. simpl. eauto.
Qed.

Lemma wf_object_iff (m : Map) :
  wf_value (Object m) <->
  StronglySorted key_lt m /\ Forall (fun kv => wf_value (snd kv)) m.
Proof.
  simpl. split; intros [HS Hm]; split; auto; clear HS.
  - induction m as [|[k v] r IH]; auto. destruct Hm as [Hv Hr]. constructor; auto.
  - induction Hm as [|[k v] r Hv _ IH]; simpl; auto.
Qed.

Lemma map_from_entries_wf (l : Map) :
  Forall (fun kv => wf_value (snd kv)) l -> wf_value (Object (map_from_entries l)).
Proof.
  intros Hl. apply wf_object_iff. unfold map_from_entries.
  assert (H0 : StronglySorted key_lt ([] : Map) /\
               Forall (fun kv => wf_value (snd kv)) ([] : Map)) by (split; constructor).
  revert H0. generalize ([] : Map). induction Hl as [|[k v] r Hv _ IH]; intros acc [HS HF];
    simpl; auto.
  apply IH. split; [apply map_insert_sorted; exact HS | apply Forall_map_insert; auto].
Qed.

Lemma normalize_value_wf_out (v : Value) : wf_value (normalize_value v).
Proof.
  induction v as [| | | |l IH|m IH] using value_ind'; simpl; auto.
  - induction IH as [|x r Hx _ IHr]; simpl; auto.
  - apply map_from_entries_wf. apply wf_object_iff. apply map_from_entries_wf.
    induction IH as [|[k x] r Hx _ IHr]; simpl; constructor; auto.
Qed.

Lemma default_object_wf (k : string) (r : Map) :
  wf_value (Object r) -> wf_value (Object (default_object k r)).
Proof.
  intros H. unfold default_object. destruct (is_some_and _ _); auto.
  apply wf_object_iff in H as [HS HF]. apply wf_object_iff.
  split; [apply map_insert_sorted; exact HS | apply Forall_map_insert; simpl; auto].
  split; constructor.
Qed.

Lemma normalize_uec_wf (c : Value) : wf_value (normalize_uec c).
Proof.
  unfold normalize_uec. pose proof (normalize_value_wf_out c) as H.
  destruct (normalize_value c); auto. repeat apply default_object_wf. exact H.
Qed.

Lemma default_object_get_same (k : string) (r : Map) :
  is_some_and (map_get k (default_object k r)) is_object = true.
Proof.
  unfold default_object. destruct (is_some_and (map_get k r) is_object) eqn:E; auto.
  rewrite map_get_insert_eq. reflexivity.
Qed.

Lemma default_object_present (k : string) (r : Map) :
  is_some_and (map_get k r) is_object = true -> default_object k r = r.
Proof. unfold default_object. intros ->. reflexivity. Qed.

(** X5: [normalize_uec] is idempotent, and a card shows no difference from its own normalisation under [diff_uec]. *)
Theorem normalize_uec_idempotent (c : Value) :
  normalize_uec (normalize_uec c) = normalize_uec c /\ diff_uec (normalize_uec c) c = [].
Proof.
  assert (I : normalize_uec (normalize_uec c) = normalize_uec c).
  { unfold normalize_uec at 1. rewrite (normalize_value_wf _ (normalize_uec_wf c)).
    unfold normalize_uec. destruct (normalize_value c) as [| | | | |root]; auto.
    set (r1 := default_object "app_specific_settings" root).
    set (r2 := default_object "meta" r1).
    set (r3 := default_object "extensions" r2).
    rewrite (default_object_present "app_specific_settings" r3).
    2:{ unfold r3, r2. rewrite !default_object_get_ne by reflexivity.
        apply default_object_get_same. }
    rewrite (default_object_present "meta" r3).
    2:{ unfold r3. rewrite default_object_get_ne by reflexivity.
        apply default_object_get_same. }
    rewrite (default_object_present "extensions" r3) by apply default_object_get_same.
    reflexivity. }
  split; [exact I|]. unfold diff_uec. rewrite I. apply walk_diff_equal, value_eqb_refl.
Qed.

Lemma walk_diff_object_keys (l r : Map) (p k : string) (e : UecDiffEntry) :
  map_get k l <> map_get k r ->
  In e match map_get k l with
       | None =>
           match map_get k r with
           | Some after =>
               [{| path := key_path p k; change_type := "added";
                   before := None; after := Some after |}]
           | None => []
           end
       | Some before =>
           match map_get_with (fun after => walk_diff before after (key_path p k)) k r with
           | Some entries => entries
           | None =>
               [{| path := key_path p k; change_type := "removed";
                   before := Some before; after := None |}]
           end
       end ->
  In e (walk_diff (Object l) (Object r) p).
Proof.
  intros Hne He. cbn [walk_diff].
  destruct (value_eqb (Object l) (Object r)) eqn:E.
  { apply value_eqb_eq in E. injection E as ->. contradiction. }
  apply in_flat_map. exists k. split; [|exact He].
  rewrite !set_extend_in. simpl.
  destruct (map_get k l) eqn:L.
  - left; right. eapply map_get_some_in; eauto.
  - destruct (map_get k r) eqn:R; [|contradiction].
    right. eapply map_get_some_in; eauto.
Qed.

(** X2: when two objects are compared, a key present only on the right yields an [added] entry at [key_path p k] carrying its value, and a key present only on the left yields a [removed] entry there. *)
Theorem walk_diff_added_removed (l r : Map) (p k : string) (v : Value) :
  (map_get k l = None -> map_get k r = Some v ->
   In {| path := key_path p k; change_type := "added"; before := None; after := Some v |}
     (walk_diff (Object l) (Object r) p)) /\
  (map_get k l = Some v -> map_get k r = None ->
   In {| path := key_path p k; change_type := "removed"; before := Some v; after := None |}
     (walk_diff (Object l) (Object r) p)).
Proof.
  split; intros L R; apply walk_diff_object_keys with (k := k); rewrite ?L, ?R;
    try discriminate.
  - left; reflexivity.
  - rewrite map_get_with_spec, R. left; reflexivity.
Qed.

Lemma set_insert_sorted (k : string) (s : list string) :
  StronglySorted str_lt s -> StronglySorted str_lt (set_insert k s).
Proof.
  induction s as [|k0 r IH]; simpl; intros HS.
  - repeat constructor.
  - inversion HS as [|? ? HS' HF]; subst.
    destruct (String.compare k k0) eqn:C.
    + constructor; auto.
    + constructor; [constructor; auto|]. constructor; [exact C|].
      eapply Forall_impl; [|exact HF]. intros a H. eapply str_compare_lt_trans; eauto.
    + constructor; auto. apply Forall_forall. intros x Hx.
      apply set_insert_in in Hx as [->|Hx].
      * apply str_compare_gt_lt. exact C.
      * rewrite Forall_forall in HF. auto.
Qed.

Lemma set_extend_sorted (s ks : list string) :
  StronglySorted str_lt s -> StronglySorted str_lt (set_extend s ks).
Proof.
  unfold set_extend. revert s. induction ks as [|k r IH]; intros s HS; simpl; auto.
  apply IH, set_insert_sorted, HS.
Qed.

Lemma sorted_same_elements (l1 l2 : list string) :
  StronglySorted str_lt l1 -> StronglySorted str_lt l2 ->
  (forall x, In x l1 <-> In x l2) -> l1 = l2.
Proof.
  revert l2. induction l1 as [|x r1 IH]; intros [|y r2] H1 H2 Hx.
  - reflexivity.
  - exfalso. apply (proj2 (Hx y)). left; reflexivity.
  - exfalso. apply (proj1 (Hx x)). left; reflexivity.
  - inversion H1 as [|? ? S1 F1]; inversion H2 as [|? ? S2 F2]; subst.
    rewrite Forall_forall in F1, F2.
    assert (E : x = y).
    { destruct (proj1 (Hx x) (or_introl eq_refl)) as [|Ix]; auto.
      destruct (proj2 (Hx y) (or_introl eq_refl)) as [|Iy]; auto.
      pose proof (str_compare_lt_trans _ _ _ (F1 y Iy) (F2 x Ix)) as C.
      rewrite str_compare_refl in C. discriminate. }
    subst y. f_equal. apply IH; auto. intros z. split; intros Hz.
    + destruct (proj1 (Hx z) (or_intror Hz)) as [<-|]; auto.
      specialize (F1 x Hz). unfold str_lt in F1. rewrite str_compare_refl in F1. discriminate.
    + destruct (proj2 (Hx z) (or_intror Hz)) as [<-|]; auto.
      specialize (F2 x Hz). unfold str_lt in F2. rewrite str_compare_refl in F2. discriminate.
Qed.

Lemma union_keys_comm (l r : Map) :
  set_extend (set_extend [] (map fst l)) (map fst r) =
  set_extend (set_extend [] (map fst r)) (map fst l).
Proof.
  apply sorted_same_elements; try (apply set_extend_sorted, set_extend_sorted; constructor).
  intros x. rewrite !set_extend_in. simpl. tauto.
Qed.

Lemma leaf_diff_flip (a b : Value) (p : string) :
  leaf_diff b a p = map flip_entry (leaf_diff a b p).
Proof. unfold leaf_diff. rewrite value_eqb_sym. destruct (value_eqb a b); reflexivity. Qed.

Theorem walk_diff_flip (a b : Value) (p : string) :
  walk_diff b a p = map flip_entry (walk_diff a b p).
Proof.
  revert a p.
  induction b as [| | | |rs IH|rm IH] using value_ind'; intros a p;
    match goal with |- walk_diff ?B ?A _ = _ => pose proof (value_eqb_sym A B) as S end;
    destruct a as [| | | |ls|lm]; cbn [walk_diff]; try rewrite S; clear S;
    destruct (value_eqb _ _); try reflexivity.
  - generalize 0. revert ls. induction IH as [|r rs Hr _ IHr]; intros ls i.
    + revert i. induction ls as [|l ls IHl]; intros i; simpl; auto.
      rewrite map_app, <- leaf_diff_flip, <- IHl. reflexivity.
    + destruct ls as [|l ls]; simpl; rewrite map_app, <- IHr.
      * rewrite <- leaf_diff_flip. reflexivity.
      * rewrite Hr. reflexivity.
  - rewrite union_keys_comm, flat_map_concat_map, flat_map_concat_map, concat_map, map_map.
    f_equal. apply map_ext_in. intros k Hk.
    destruct (map_get k lm) as [x|] eqn:L, (map_get k rm) as [y|] eqn:R;
      rewrite ?map_get_with_spec, ?L, ?R; simpl; try reflexivity.
    apply map_get_in in R. rewrite Forall_forall in IH. apply (IH (k, y) R).
Qed.

(** X4: swapping the two cards of [diff_uec] gives the same entries in the same order, with [before] and [after] exchanged and [added] and [removed] exchanged. *)
Theorem diff_uec_flip (left right : Value) :
  diff_uec right left = map flip_entry (diff_uec left right).
Proof. unfold diff_uec. apply walk_diff_flip. Qed.

Ltac incl_parts :=
  repeat first [ apply incl_refl | apply incl_nil_l | apply incl_app_app ].

Lemma for_each_indexed_incl (f g : nat -> Value -> list string) (items : list Value) (i : nat) :
  (forall j x, incl (f j x) (g j x)) ->
  incl (for_each_indexed f i items) (for_each_indexed g i items).
Proof.
  intros H. revert i. induction items as [|x r IH]; intros i; simpl; [apply incl_refl|].
  apply incl_app_app; auto.
Qed.

Lemma validate_scene_base_incl (scene : Value) (path : string) :
  incl (fst (validate_scene_base scene path false)) (fst (validate_scene_base scene path true))
  /\ snd (validate_scene_base scene path false) = snd (validate_scene_base scene path true).
Proof. destruct scene; simpl; split; auto; try apply incl_refl. incl_parts. Qed.

Lemma validate_scene_incl (scene : Value) (path : string) :
  incl (validate_scene scene path false) (validate_scene scene path true).
Proof.
  unfold validate_scene. destruct (validate_scene_base_incl scene path) as [H1 H2].
  destruct (validate_scene_base scene path false) as [e1 b1],
           (validate_scene_base scene path true) as [e2 b2].
  simpl in *. subst b2. destruct b1; incl_parts; auto.
Qed.

Lemma validate_scene_v2_incl (scene : Value) (path : string) :
  incl (validate_scene_v2 scene path false) (validate_scene_v2 scene path true).
Proof.
  unfold validate_scene_v2. destruct (validate_scene_base_incl scene path) as [H1 H2].
  destruct (validate_scene_base scene path false) as [e1 b1],
           (validate_scene_base scene path true) as [e2 b2].
  simpl in *. subst b2. destruct b1; incl_parts; auto.
Qed.

Lemma validate_meta_v2_incl (meta : option Value) :
  incl (validate_meta_v2 meta false) (validate_meta_v2 meta true).
Proof.
  unfold validate_meta_v2. apply incl_app_app; [apply incl_refl|]. simpl.
  destruct meta as [[| | | | |m]|]; simpl; incl_parts.
Qed.

Lemma validate_character_payload_v1_incl (payload : Value) :
  incl (validate_character_payload_v1 payload false) (validate_character_payload_v1 payload true).
Proof.
  destruct payload as [| | | | |m]; simpl; try apply incl_refl. incl_parts.
  destruct (map_get "scenes" m) as [[| | | |scenes|]|]; incl_parts.
  apply for_each_indexed_incl. intros; apply validate_scene_incl.
Qed.

Lemma validate_persona_payload_v1_incl (payload : Value) :
  incl (validate_persona_payload_v1 payload false) (validate_persona_payload_v1 payload true).
Proof. destruct payload as [| | | | |m]; simpl; incl_parts. Qed.

Lemma validate_character_payload_v2_incl (payload : Value) :
  incl (validate_character_payload_v2 payload false) (validate_character_payload_v2 payload true).
Proof.
  unfold validate_character_payload_v2.
  destruct payload as [| | | | |m]; cbv beta iota delta [andb]; try apply incl_refl. incl_parts.
  destruct (map_get "scene" m) as [[| | | | |]|]; incl_parts; apply validate_scene_v2_incl.
Qed.

Lemma validate_persona_payload_v2_incl (payload : Value) :
  incl (validate_persona_payload_v2 payload false) (validate_persona_payload_v2 payload true).
Proof. destruct payload as [| | | | |m]; simpl; incl_parts. Qed.

Lemma validate_payload_incl (payload : Value) (kind : option Value) (version : option string) :
  incl (validate_payload payload kind version false) (validate_payload payload kind version true).
Proof.
  unfold validate_payload. destruct (is_some_and version known_version); [|apply incl_refl].
  destruct (opt_bind kind as_str) as [k|]; [|apply incl_refl].
  destruct (String.eqb k "character"), (opt_str_eqb version SCHEMA_VERSION_V2),
    (String.eqb k "persona");
    first [ apply validate_character_payload_v1_incl | apply validate_character_payload_v2_incl
          | apply validate_persona_payload_v1_incl | apply validate_persona_payload_v2_incl
          | apply incl_refl ].
Qed.

Lemma validate_uec_incl (value : Value) :
  incl (errors (validate_uec value false)) (errors (validate_uec value true)).
Proof.
  destruct value as [| | | | |root]; simpl; try apply incl_refl.
  unfold validate_root. destruct (validate_schema (map_get "schema" root)) as [se version].
  apply incl_app_app; [apply incl_refl|]. apply incl_app_app; [apply incl_refl|].
  apply incl_app_app.
  { destruct (map_get "payload" root) as [payload|]; [|apply incl_refl].
    destruct (is_object payload); [apply validate_payload_incl | apply incl_refl]. }
  apply incl_app_app; [apply incl_refl|]. apply incl_app_app; [|apply incl_refl].
  destruct (opt_str_eqb version SCHEMA_VERSION_V2 && is_some_and version known_version)%bool;
    [apply validate_meta_v2_incl | apply incl_refl].
Qed.

(** X6: every error of the lenient validation is also reported by the strict one ([validate_uec_strict]); hence a card accepted in strict mode is accepted in lenient mode. *)
Theorem strict_errors_include_lenient (value : Value) :
  incl (errors (validate_uec value false)) (errors (validate_uec_strict value)) /\
  (is_uec value true = true -> is_uec value false = true).
Proof.
  split; [apply validate_uec_incl|]. unfold is_uec.
  pose proof (validate_uec_incl value) as H.
  destruct value as [| | | | |root]; simpl in *; auto.
  destruct (validate_root root true) as [|e r]; [|discriminate].
  intros _. apply incl_l_nil in H. rewrite H. reflexivity.
Qed.

Lemma validate_uec_ok_shape (value : Value) (strict : bool) :
  ok (validate_uec value strict) = true ->
  exists root schema version kind payload,
    value = Object root /\
    map_get "schema" root = Some (Object schema) /\
    map_get "name" schema = Some (Str SCHEMA_NAME) /\
    map_get "version" schema = Some (Str version) /\
    (version = SCHEMA_VERSION \/ version = SCHEMA_VERSION_V2) /\
    map_get "kind" root = Some (Str kind) /\
    (kind = "character" \/ kind = "persona") /\
    map_get "payload" root = Some (Object payload).
Proof.
  intros H. destruct value as [| | | | |root]; simpl in H; try discriminate.
  assert (E : validate_root root strict = [])
    by (destruct (validate_root root strict); [reflexivity | discriminate]).
  clear H. unfold validate_root in E.
  destruct (validate_schema (map_get "schema" root)) as [se version] eqn:VS.
  apply app_eq_nil in E as [Ese E]. apply app_eq_nil in E as [Ek E].
  apply app_eq_nil in E as [Ep _]. subst se.
  destruct (map_get "schema" root) as [[| | | | |schema]|] eqn:S; simpl in VS;
    injection VS as Ese <-; try discriminate Ese.
  apply app_eq_nil in Ese as [En Ese]. apply app_eq_nil in Ese as [Ev _].
  destruct (map_get "name" schema) as [[| | | n | |]|] eqn:N; simpl in En; try discriminate En.
  destruct (String.eqb_spec n SCHEMA_NAME) as [->|]; simpl in En; try discriminate En.
  destruct (map_get "version" schema) as [[| | | v | |]|] eqn:V; simpl in Ev;
    try discriminate Ev.
  destruct (known_version v) eqn:KV; simpl in Ev; try discriminate Ev.
  destruct (map_get "kind" root) as [[| | | k | |]|] eqn:K; simpl in Ek; try discriminate Ek.
  destruct (map_get "payload" root) as [[| | | | |payload]|] eqn:P; simpl in Ep;
    try discriminate Ep.
  exists root, schema, v, k, payload. repeat split; auto.
  - unfold known_version in KV. apply orb_true_iff in KV as [KV|KV];
      apply String.eqb_eq in KV; auto.
  - destruct (String.eqb_spec k "character"); auto.
    destruct (String.eqb_spec k "persona"); auto. discriminate Ek.
Qed.

(** X7: a value accepted by [validate_uec] (in either mode) is an object whose schema has name [UEC] and version 1.0 or 2.0, whose kind is [character] or [persona], and whose payload is an object. *)
Theorem validate_uec_accepts (value : Value) (strict : bool) :
  ok (validate_uec value strict) = true ->
  exists root schema version kind payload,
    value = Object root /\
    map_get "schema" root = Some (Object schema) /\
    map_get "name" schema = Some (Str SCHEMA_NAME) /\
    map_get "version" schema = Some (Str version) /\
    (version = SCHEMA_VERSION \/ version = SCHEMA_VERSION_V2) /\
    map_get "kind" root = Some (Str kind) /\
    (kind = "character" \/ kind = "persona") /\
    map_get "payload" root = Some (Object payload).
Proof. exact (validate_uec_ok_shape value strict). Qed.

Lemma validate_uec_accepts_version (value : Value) (strict : bool) :
  ok (validate_uec value strict) = true ->
  exists version, schema_version value = Some version /\ known_version version = true.
Proof.
  intros H. destruct (validate_uec_ok_shape value strict H)
    as (root & schema & version & _ & _ & -> & S & _ & V & Hv & _).
  exists version. unfold schema_version. simpl. rewrite S. simpl. rewrite V. split; auto.
  destruct Hv as [->| ->]; reflexivity.
Qed.

(** X8: [validate_uec_at_version] accepts exactly when [validate_uec] accepts and the card's schema version is the requested one. *)
Theorem validate_uec_at_version_ok (value : Value) (version : string) (strict : bool) :
  ok (validate_uec_at_version value version strict) =
  ok (validate_uec value strict) && opt_str_eqb (schema_version value) version.
Proof.
  unfold validate_uec_at_version.
  destruct (schema_version value) as [current|] eqn:SV; simpl.
  - destruct (String.eqb current version); simpl; rewrite ?andb_true_r, ?andb_false_r; reflexivity.
  - rewrite andb_false_r. destruct (ok (validate_uec value strict)) eqn:O; auto.
    destruct (validate_uec_accepts_version value strict O) as [v [SV' _]]. congruence.
Qed.

(** X9: a value that [is_uec] accepts is accepted by exactly one of [is_character_uec] and [is_persona_uec]. *)
Theorem is_uec_character_xor_persona (value : Value) (strict : bool) :
  is_uec value strict = true ->
  xorb (is_character_uec value strict) (is_persona_uec value strict) = true.
Proof.
  intros H. unfold is_character_uec, is_persona_uec. rewrite H. simpl.
  destruct (validate_uec_ok_shape value strict H)
    as (root & _ & _ & kind & _ & -> & _ & _ & _ & _ & K & Hk & _).
  simpl. rewrite K. simpl. destruct Hk as [->| ->]; reflexivity.
Qed.

Lemma normalize_uec_schema_version (c : Value) :
  wf_value c -> schema_version (normalize_uec c) = schema_version c.
Proof.
  intros H. unfold normalize_uec. rewrite (normalize_value_wf c H).
  destruct c as [| | | | |root]; auto. unfold schema_version. simpl.
  rewrite !default_object_get_ne by reflexivity. reflexivity.
Qed.

(** X10: if [upgrade_uec] succeeds on a well-formed card, the target version and the card's own version are both known versions, and the result carries the target version. *)
Theorem upgrade_uec_versions (c c' : Value) (target_version : string) :
  wf_value c -> upgrade_uec c target_version = Ok c' ->
  known_version target_version = true /\
  (exists v, schema_version c = Some v /\ known_version v = true) /\
  schema_version c' = Some target_version.
Proof.
  intros Hwf. unfold upgrade_uec.
  destruct (schema_version c) as [v|] eqn:SV; [|discriminate].
  destruct (String.eqb_spec target_version SCHEMA_VERSION_V2) as [->|Ht2].
  - destruct (String.eqb_spec v SCHEMA_VERSION_V2) as [->|Hv2].
    + intros E. injection E as <-. rewrite normalize_uec_schema_version by exact Hwf.
      repeat split; auto. eexists; split; [reflexivity|reflexivity].
    + destruct (String.eqb_spec v SCHEMA_VERSION) as [->|Hv1]; [|discriminate].
      intros E. destruct c as [| | | | |root];
        try (unfold convert_uec_v1_to_v2 in E; simpl in E; discriminate E).
      assert (Hok : ok (validate_uec (Object root) false) = true).
      { unfold convert_uec_v1_to_v2 in E. simpl in E |- *.
        destruct (is_empty (validate_root root false)); [reflexivity | discriminate E]. }
      destruct (convert_v1_shape root Hok SV) as [root' [E' [Hs _]]].
      rewrite E' in E. injection E as <-. repeat split; auto.
      eexists; split; [reflexivity|reflexivity].
  - destruct (String.eqb_spec target_version SCHEMA_VERSION) as [->|Ht1]; [|discriminate].
    destruct (String.eqb_spec v SCHEMA_VERSION) as [->|Hv1].
    + unfold downgrade_uec. rewrite SV. simpl. intros E. injection E as <-.
      rewrite normalize_uec_schema_version by exact Hwf.
      repeat split; auto. eexists; split; [reflexivity|reflexivity].
    + destruct (String.eqb_spec v SCHEMA_VERSION_V2) as [->|Hv2].
      * destruct c as [| | | | |root]; try discriminate SV.
        destruct (downgrade_v2_shape root false SV) as [dr [E' [Hs _]]].
        rewrite E'. destruct dr as [cd w]. intros E. injection E as <-.
        repeat split; auto. eexists; split; [reflexivity|reflexivity].
      * unfold downgrade_uec. rewrite SV. simpl.
        destruct (String.eqb v SCHEMA_VERSION) eqn:E1;
          [apply String.eqb_eq in E1; contradiction|].
        destruct (String.eqb v SCHEMA_VERSION_V2) eqn:E2;
          [apply String.eqb_eq in E2; contradiction|]. discriminate.
Qed.

(** X11: upgrading a card to its own (known) schema version returns its normalisation. *)
Theorem upgrade_uec_same_version (c : Value) (target_version : string) :
  schema_version c = Some target_version -> known_version target_version = true ->
  upgrade_uec c target_version = Ok (normalize_uec c).
Proof.
  intros SV K. unfold upgrade_uec. rewrite SV.
  unfold known_version in K. apply orb_true_iff in K as [K|K]; apply String.eqb_eq in K; subst.
  - unfold downgrade_uec. rewrite SV. reflexivity.
  - reflexivity.
Qed.

Lemma starts_with_id (p : string) : starts_with "_ID:" ("_ID:" +++ p) = true.
Proof. reflexivity. Qed.

Lemma normalize_system_prompt_cases (m : Map) (b : bool) :
  normalize_system_prompt (Object m) b = Object m \/
  exists p, map_get "systemPrompt" m = Some (Str p) /\ starts_with "_ID:" p = false /\
    normalize_system_prompt (Object m) b =
    Object (map_insert "systemPrompt" (Str ("_ID:" +++ p)) m).
Proof.
  unfold normalize_system_prompt. destruct b; simpl; [|left; reflexivity].
  destruct (map_get "systemPrompt" m) as [[| | | p | |]|] eqn:E; try (left; reflexivity).
  destruct (starts_with "_ID:" p) eqn:S; [left; reflexivity|]. right. eauto.
Qed.

(** X12: [normalize_system_prompt] is idempotent: a prompt that already starts with [_ID:] is left alone. *)
Theorem normalize_system_prompt_idempotent (payload : Value) (system_prompt_is_id : bool) :
  normalize_system_prompt (normalize_system_prompt payload system_prompt_is_id)
    system_prompt_is_id = normalize_system_prompt payload system_prompt_is_id.
Proof.
  destruct payload as [| | | | |m]; try (destruct system_prompt_is_id; reflexivity).
  destruct (normalize_system_prompt_cases m system_prompt_is_id) as [E|[p [_ [_ E]]]];
    rewrite E; [exact E|].
  unfold normalize_system_prompt at 1. destruct system_prompt_is_id; [|reflexivity].
  cbv beta iota delta [negb]. rewrite map_get_insert_eq, starts_with_id. reflexivity.
Qed.

Lemma convert_payload_prompt_id (m : Map) (q : string) :
  map_get "systemPrompt" m = Some (Str ("_ID:" +++ q)) ->
  map_get "promptTemplateId" (convert_payload m) = Some (Str q) /\
  map_get "systemPrompt" (convert_payload m) = Some Null.
Proof.
  intros H. unfold convert_payload. cbv zeta.
  match goal with |- context [map_remove "defaultSceneId" ?X] =>
    assert (E : map_get "systemPrompt" X = Some (Str ("_ID:" +++ q))); [|set (Y := X) in *]
  end.
  { destruct (map_get "scenes" (map_remove "rules" m)) as [sc|];
      [|other_keys; exact H].
    other_keys. destruct sc as [| | | |items|]; other_keys; try exact H.
    destruct (negb (is_empty items)); other_keys; try exact H.
    destruct (pick_scene (map_remove "rules" m) items) as [[| | | | |ps]|];
      other_keys; exact H. }
  rewrite (map_get_remove_ne "systemPrompt" "defaultSceneId") by reflexivity. rewrite E.
  change (strip_prefix "_ID:" ("_ID:" +++ q)) with (Some q). cbv beta iota.
  rewrite map_get_insert_eq. split; [|reflexivity].
  rewrite map_get_insert_ne by reflexivity. apply map_get_insert_eq.
Qed.

(** X13: a system prompt without the [_ID:] prefix, normalised as an id, is recognised by [_system_prompt_is_id], and the v1-to-v2 payload conversion then moves it (without the prefix) to [promptTemplateId] and sets [systemPrompt] to [Null]. *)
Theorem system_prompt_id_roundtrip (m : Map) (p : string) :
  map_get "systemPrompt" m = Some (Str p) -> starts_with "_ID:" p = false ->
  exists m', normalize_system_prompt (Object m) true = Object m' /\
    _system_prompt_is_id (Object m') = true /\
    map_get "promptTemplateId" (convert_payload m') = Some (Str p) /\
    map_get "systemPrompt" (convert_payload m') = Some Null.
Proof.
  intros Hp Hs. unfold normalize_system_prompt. simpl. rewrite Hp, Hs.
  eexists; split; [reflexivity|]. split.
  { unfold _system_prompt_is_id. simpl. rewrite map_get_insert_eq. reflexivity. }
  apply convert_payload_prompt_id. apply map_get_insert_eq.
Qed.

Lemma validate_character_payload_v1_prompt (m : Map) (p x : string) (strict : bool) :
  map_get "systemPrompt" m = Some (Str p) ->
  validate_character_payload_v1 (Object (map_insert "systemPrompt" (Str x) m)) strict =
  validate_character_payload_v1 (Object m) strict.
Proof.
  intros H. unfold validate_character_payload_v1.
  rewrite !map_get_insert. cbv [String.eqb Ascii.eqb Bool.eqb]. rewrite H. reflexivity.
Qed.

(** X14: a v1 card created by [create_character_uec] or [create_persona_uec] with default schema and sections has exactly the validation errors of its payload's v1 validator. *)
Theorem create_v1_validation (payload : Map) (system_prompt_is_id strict : bool) :
  (exists card,
     create_character_uec payload system_prompt_is_id None None None None = Some card /\
     errors (validate_uec card strict) = validate_character_payload_v1 (Object payload) strict) /\
  (exists card,
     create_persona_uec payload None None None None = Some card /\
     errors (validate_uec card strict) = validate_persona_payload_v1 (Object payload) strict).
Proof.
  split; (eexists; split; [reflexivity|]).
  - assert (N : exists m', normalize_system_prompt (Object payload) system_prompt_is_id = Object m'
              /\ validate_character_payload_v1 (Object m') strict =
                 validate_character_payload_v1 (Object payload) strict).
    { destruct (normalize_system_prompt_cases payload system_prompt_is_id)
        as [E|[p [Hp [_ E]]]]; rewrite E; eexists; split; try reflexivity.
      apply validate_character_payload_v1_prompt with (p := p). exact Hp. }
    destruct N as [m' [E V]]. rewrite <- V. unfold create_character_uec, create_uec.
    cbn -[validate_character_payload_v1 normalize_system_prompt]. rewrite E.
    cbn -[validate_character_payload_v1]. apply app_nil_r.
  - unfold create_persona_uec, create_uec. cbn -[validate_persona_payload_v1].
    apply app_nil_r.
Qed.

(** X15: a card created by [create_character_uec_v2] or [create_persona_uec_v2] with default sections has exactly the errors of its payload's v2 validator followed by the strict-mode errors for the empty [meta] object. *)
Theorem create_v2_validation (payload : Map) (strict : bool) :
  (exists card,
     create_character_uec_v2 payload None None None None = Some card /\
     errors (validate_uec card strict) =
     validate_character_payload_v2 (Object payload) strict ++ empty_meta_v2_errors strict) /\
  (exists card,
     create_persona_uec_v2 payload None None None None = Some card /\
     errors (validate_uec card strict) =
     validate_persona_payload_v2 (Object payload) strict ++ empty_meta_v2_errors strict).
Proof.
  split; (eexists; split; [reflexivity|]).
  - unfold create_character_uec_v2, create_uec. cbn -[validate_character_payload_v2].
    destruct strict; simpl; rewrite ?app_nil_r; reflexivity.
  - unfold create_persona_uec_v2, create_uec. cbn -[validate_persona_payload_v2].
    destruct strict; simpl; rewrite ?app_nil_r; reflexivity.
Qed.

Lemma merge_uec_value (base incoming : Value) (options : MergeOptions) :
  value (merge_uec base incoming options) = fst (merge_values base incoming EmptyString options []).
Proof. unfold merge_uec. destruct (merge_values _ _ _ _ _). reflexivity. Qed.

Lemma merge_values_null_base (incoming : Value) (path : string) (options : MergeOptions)
  (cs : list string) :
  fst (merge_values Null incoming path options cs) =
  if opt_str_eqb (conflict options) "base" then Null else incoming.
Proof.
  destruct incoming; simpl; destruct (opt_str_eqb (conflict options) "base"); reflexivity.
Qed.

(** X18: in [merge_uec] of two objects, a key absent from the incoming object keeps its base value, and a key only in the incoming object gets the incoming value, or [Null] when the conflict policy is [base]. *)
Theorem merge_uec_one_sided_keys (left right : Map) (options : MergeOptions) (k : string) :
  (map_get k right = None ->
   get k (value (merge_uec (Object left) (Object right) options)) = map_get k left) /\
  (forall v, map_get k left = None -> map_get k right = Some v ->
   get k (value (merge_uec (Object left) (Object right) options)) =
   Some (if opt_str_eqb (conflict options) "base" then Null else v)).
Proof.
  rewrite merge_uec_value, merge_object_fst. simpl. split.
  - intros R. destruct (in_dec String.string_dec k (merge_keys left right)) as [I|I].
    + rewrite fold_insert_get_in by exact I. unfold merge_entry. rewrite R.
      apply merge_keys_in in I as [I|I].
      * destruct (map_get k left) eqn:L; [reflexivity|].
        apply map_get_none_not_in in L. contradiction.
      * destruct (map_get k right) eqn:R'; [discriminate|].
        apply map_get_none_not_in in R'. contradiction.
    + rewrite fold_insert_get_notin by exact I. simpl.
      destruct (map_get k left) eqn:L; [|reflexivity].
      exfalso. apply I, merge_keys_in. left. eapply map_get_some_in; eauto.
  - intros v L R. rewrite fold_insert_get_in.
    + unfold merge_entry. rewrite L, R. rewrite merge_values_null_base. reflexivity.
    + apply merge_keys_in. right. eapply map_get_some_in; eauto.
Qed.

Lemma fold_pairs_get (l base : Map) (k : string) :
  StronglySorted key_lt l ->
  map_get k (fold_left (fun acc kv => map_insert (fst kv) (snd kv) acc) l base) =
  match map_get k l with Some v => Some v | None => map_get k base end.
Proof.
  revert base. induction l as [|[k0 v0] r IH]; intros base HS; simpl; auto.
  inversion HS as [|? ? HS' HF]; subst. rewrite IH by exact HS'.
  rewrite map_get_insert. destruct (String.eqb_spec k k0) as [->|]; [|reflexivity].
  rewrite map_get_sorted_absent; [reflexivity|]. exact HF.
Qed.

Lemma create_uec_schema_get (kind : string) (payload : Value) (schema : option Map)
  (app_specific_settings meta extensions : option Value) (system_prompt_is_id : bool)
  (card : Value) :
  (forall s, schema = Some s -> StronglySorted key_lt s) ->
  create_uec kind payload schema app_specific_settings meta extensions system_prompt_is_id
    = Some card ->
  exists sv, get "schema" card = Some (Object sv) /\
    map_get "name" sv =
      Some (match opt_bind schema (map_get "name") with Some v => v | None => Str SCHEMA_NAME end) /\
    map_get "version" sv =
      Some (match opt_bind schema (map_get "version") with
            | Some v => v | None => Str SCHEMA_VERSION end).
Proof.
  intros HS. unfold create_uec.
  destruct (String.eqb kind EmptyString); [discriminate|].
  destruct (is_object payload); [|discriminate]. simpl negb. cbv beta iota zeta.
  intros E. injection E as <-. simpl get. lookups_ne.
  eexists; split; [reflexivity|].
  destruct schema as [s|]; simpl.
  - specialize (HS s eq_refl). rewrite !fold_pairs_get by exact HS.
    split; [destruct (map_get "name" s); reflexivity|].
    destruct (map_get "version" s); reflexivity.
  - split; reflexivity.
Qed.

(** X16: the schema that [create_uec] writes takes its name and version from the custom schema where the custom schema has them, and is [UEC] version 1.0 otherwise. *)
Theorem create_uec_schema (kind : string) (payload : Value) (schema : option Map)
  (app_specific_settings meta extensions : option Value) (system_prompt_is_id : bool)
  (card : Value) :
  (forall s, schema = Some s -> StronglySorted key_lt s) ->
  create_uec kind payload schema app_specific_settings meta extensions system_prompt_is_id
    = Some card ->
  exists sv, get "schema" card = Some (Object sv) /\
    map_get "name" sv =
      Some (match opt_bind schema (map_get "name") with Some v => v | None => Str SCHEMA_NAME end) /\
    map_get "version" sv =
      Some (match opt_bind schema (map_get "version") with
            | Some v => v | None => Str SCHEMA_VERSION end).
Proof. exact (create_uec_schema_get kind payload schema app_specific_settings meta extensions system_prompt_is_id card). Qed.

(** X17: [create_character_uec_v2] and [create_persona_uec_v2] always produce a card of schema version 2.0, whatever custom schema they are given. *)
Theorem create_v2_schema_version (payload : Map) (schema : option Map)
  (app_specific_settings meta extensions : option Value) :
  (forall s, schema = Some s -> StronglySorted key_lt s) ->
  (exists card,
     create_character_uec_v2 payload schema app_specific_settings meta extensions = Some card /\
     schema_version card = Some SCHEMA_VERSION_V2) /\
  (exists card,
     create_persona_uec_v2 payload schema app_specific_settings meta extensions = Some card /\
     schema_version card = Some SCHEMA_VERSION_V2).
Proof.
  intros HS.
  set (sm := map_insert "version" (Str SCHEMA_VERSION_V2)
               (match schema with Some s => s | None => [] end)).
  assert (Hsm : StronglySorted key_lt sm).
  { apply map_insert_sorted. destruct schema as [s|]; [apply HS; reflexivity | constructor]. }
  assert (Hs : forall s, Some sm = Some s -> StronglySorted key_lt s)
    by (intros s E; injection E as <-; exact Hsm).
  assert (Hv : map_get "version" sm = Some (Str SCHEMA_VERSION_V2)) by apply map_get_insert_eq.
  split.
  - destruct (create_uec "character" (Object payload) (Some sm) app_specific_settings meta
                extensions false) as [card|] eqn:C; [|unfold create_uec in C; discriminate C].
    exists card. split; [exact C|].
    destruct (create_uec_schema_get _ _ _ _ _ _ _ _ Hs C) as [sv [G [_ V]]].
    unfold schema_version. rewrite G. cbn [opt_bind get]. rewrite V. cbn [opt_bind]. rewrite Hv. reflexivity.
  - destruct (create_uec "persona" (Object payload) (Some sm) app_specific_settings meta
                extensions false) as [card|] eqn:C; [|unfold create_uec in C; discriminate C].
    exists card. split; [exact C|].
    destruct (create_uec_schema_get _ _ _ _ _ _ _ _ Hs C) as [sv [G [_ V]]].
    unfold schema_version. rewrite G. cbn [opt_bind get]. rewrite V. cbn [opt_bind]. rewrite Hv. reflexivity.
Qed.

(** X19: every reference [extract_assets_walk] reports is either of kind [string] with a value that looks like an asset string, or of kind [locator] with an asset-locator object as value. *)
Theorem extract_assets_kinds (value : Value) (path : string) :
  Forall asset_reference_ok (extract_assets_walk value path).
Proof.
  revert path. induction value as [| | | |items IH|m IH] using value_ind'; intros path;
    cbn [extract_assets_walk];
    destruct (is_likely_asset_string _) eqn:A;
    try (constructor; [left; split; [reflexivity | exact A] | constructor]);
    destruct (is_object _ && is_asset_locator_object _)%bool eqn:L;
    try (apply andb_prop in L as [L1 L2];
         constructor; [right; split; [reflexivity | split; assumption] | constructor]);
    auto.
  - generalize 0. induction IH as [|x r Hx _ IHr]; intros i; simpl; auto.
    apply Forall_app. split; auto.
  - clear A L. induction IH as [|[k x] r Hx _ IHr]; simpl; auto.
    apply Forall_app. split; auto.
Qed.

(** X20: the result of the asset rewrite depends only on the mapper's results at the references that the asset walk extracts. *)
Theorem rewrite_walk_mapper_agree (f g : AssetReference -> Value) (value : Value)
  (path : string) :
  (forall r, In r (extract_assets_walk value path) -> f r = g r) ->
  rewrite_walk f value path = rewrite_walk g value path.
Proof.
  revert path. induction value as [| | | |items IH|m IH] using value_ind'; intros path H;
    cbn [rewrite_walk extract_assets_walk] in *;
    destruct (is_likely_asset_string _);
    try (apply H; left; reflexivity);
    destruct (is_object _ && is_asset_locator_object _)%bool;
    try (apply H; left; reflexivity); auto.
  - f_equal. revert H. generalize 0.
    induction IH as [|x r Hx _ IHr]; intros i H; simpl in *; auto.
    f_equal.
    + apply Hx. intros ref Href. apply H, in_or_app. left; exact Href.
    + apply IHr. intros ref Href. apply H, in_or_app. right; exact Href.
  - f_equal. revert H. generalize ([] : Map).
    induction IH as [|[k x] r Hx _ IHr]; intros out H; simpl in *; auto.
    rewrite (Hx (key_path path k)).
    + apply IHr. intros ref Href. apply H, in_or_app. right; exact Href.
    + intros ref Href. apply H, in_or_app. left; exact Href.
Qed.

Lemma map_get_remove_none (k k' : string) (m : Map) :
  map_get k m = None -> map_get k (map_remove k' m) = None.
Proof.
  induction m as [|[k0 v0] r IH]; simpl; auto.
  destruct (String.eqb k k0) eqn:E; [discriminate|]. intros H.
  destruct (String.eqb k' k0); auto. simpl. rewrite E. auto.
Qed.

Lemma v1_scenes_no_scene (p : Map) :
  StronglySorted key_lt p ->
  StronglySorted key_lt (v1_scenes p) /\ map_get "scene" (v1_scenes p) = None.
Proof.
  intros HS. unfold v1_scenes.
  destruct (map_get "scene" p) as [scene|] eqn:Es; [|auto].
  pose proof (map_remove_sorted "scene" p HS) as HS1.
  pose proof (map_get_remove_same "scene" p HS) as N1.
  destruct scene as [| | | | |sm]; auto.
  match goal with |- context [map_get "id" ?s] => destruct (map_get "id" s) end;
    split; repeat apply map_insert_sorted; auto; other_keys; exact N1.
Qed.

Lemma remove_fields_step_none (k : string) (fields : list string) :
  forall (acc : Map * list string), map_get k (fst acc) = None ->
  map_get k (fst (fold_left
    (fun (acc : Map * list string) (field : string) =>
       let (payload, warnings) := acc in
       match map_get field payload with
       | Some _ =>
           (map_remove field payload,
            warnings ++ ["payload." +++ field +++ " is not supported in v1 and was removed"])
       | None => (payload, warnings)
       end) fields acc)) = None.
Proof.
  induction fields as [|f r IH]; intros [m w] H; simpl in *; auto.
  apply IH. destruct (map_get f m); simpl; auto. apply map_get_remove_none. exact H.
Qed.

Lemma remove_fields_props (fields : list string) :
  forall (acc : Map * list string), StronglySorted key_lt (fst acc) ->
  let out := fst (fold_left
    (fun (acc : Map * list string) (field : string) =>
       let (payload, warnings) := acc in
       match map_get field payload with
       | Some _ =>
           (map_remove field payload,
            warnings ++ ["payload." +++ field +++ " is not supported in v1 and was removed"])
       | None => (payload, warnings)
       end) fields acc) in
  StronglySorted key_lt out /\ Forall (fun f => map_get f out = None) fields.
Proof.
  induction fields as [|f r IH]; intros [m w] HS; simpl in *; auto.
  destruct (map_get f m) as [v|] eqn:E.
  - match goal with |- context [fold_left ?G r ?acc] =>
      destruct (IH acc (map_remove_sorted f m HS)) as [S F] end.
    split; [exact S|]. constructor; [|exact F].
    apply remove_fields_step_none. apply map_get_remove_same. exact HS.
  - destruct (IH (m, w) HS) as [S F]. split; [exact S|]. constructor; [|exact F].
    apply remove_fields_step_none. exact E.
Qed.

(** X21: the payload part of [downgrade_uec] keeps a sorted payload sorted and leaves no [scene], no [promptTemplateId] and none of the v2-only fields (fallbackModelId, nickname, creator, creatorNotes, creatorNotesMultilingual, source, characterBook) in it. *)
Theorem downgrade_payload_drops_v2_fields (p : Map) (keep_rules : bool) (q : Map)
  (w : list string) :
  StronglySorted key_lt p -> downgrade_payload p keep_rules = (q, w) ->
  StronglySorted key_lt q /\ map_get "scene" q = None /\ map_get "promptTemplateId" q = None /\
  Forall (fun f => map_get f q = None) removed_fields.
Proof.
  intros HS. unfold downgrade_payload.
  destruct (v1_scenes_no_scene p HS) as [S1 N1].
  set (p1 := v1_scenes p) in *. clearbody p1.
  match goal with |- (let (_, _) := ?X in _) = _ -> _ =>
    assert (P2 : StronglySorted key_lt (fst X) /\ map_get "scene" (fst X) = None /\
                 map_get "promptTemplateId" (fst X) = None);
    [| destruct X as [p2 w1]; simpl in P2; destruct P2 as [S2 [N2 M2]]]
  end.
  { destruct (map_get "promptTemplateId" p1) as [pt|] eqn:Ept; simpl; [|auto].
    pose proof (map_remove_sorted "promptTemplateId" p1 S1) as S.
    pose proof (map_get_remove_same "promptTemplateId" p1 S1) as M.
    destruct (match map_get "systemPrompt" _ with None => true | Some v => is_null v end);
      [destruct (as_str pt)|];
      repeat split; try apply map_insert_sorted; auto; other_keys; auto. }
  unfold remove_fields.
  destruct (remove_fields_props removed_fields (p2, []) S2) as [S3 F3].
  pose proof (remove_fields_get "scene" removed_fields) as G1.
  pose proof (remove_fields_get "promptTemplateId" removed_fields) as G2.
  specialize (G1 ltac:(simpl; intuition discriminate) (p2, [])).
  specialize (G2 ltac:(simpl; intuition discriminate) (p2, [])).
  destruct (fold_left _ removed_fields (p2, [])) as [p3 w2] eqn:R. simpl in *.
  intros E. injection E as <- _.
  destruct (negb keep_rules && negb (map_contains_key "rules" p3))%bool.
  - repeat split; [apply map_insert_sorted; exact S3 | other_keys; congruence
                  | other_keys; congruence |].
    apply Forall_forall. intros f Hf. rewrite Forall_forall in F3.
    rewrite map_get_insert_ne; [apply F3, Hf|].
    simpl in Hf. repeat destruct Hf as [<-|Hf]; try reflexivity. destruct Hf.
  - repeat split; auto; congruence.
Qed.

(** X22: [convert_uec_v1_to_v2] succeeds exactly on the cards that pass lenient validation and have schema version 1.0. *)
Theorem convert_uec_v1_to_v2_succeeds (c : Value) :
  (exists c', convert_uec_v1_to_v2 c = Ok c') <->
  ok (validate_uec c false) = true /\ schema_version c = Some SCHEMA_VERSION.
Proof.
  split.
  - intros [c' E]. unfold convert_uec_v1_to_v2 in E.
    destruct (is_object c); [|discriminate E]. simpl negb in E. cbv beta iota in E.
    destruct (ok (validate_uec c false)) eqn:O; [|discriminate E]. simpl negb in E.
    cbv beta iota zeta in E. split; [reflexivity|].
    destruct (schema_version c) as [v|].
    + destruct (String.eqb v SCHEMA_VERSION) eqn:Ev; [|discriminate E].
      apply String.eqb_eq in Ev. rewrite Ev. reflexivity.
    + discriminate E.
  - intros [O V].
    destruct (validate_uec_ok_shape c false O) as [root [_ [_ [_ [_ [-> _]]]]]].
    unfold convert_uec_v1_to_v2. simpl is_object. rewrite O, V. simpl negb.
    cbv beta iota zeta. eexists. reflexivity.
Qed.

(** X23: [downgrade_uec] succeeds exactly when the target version is 1.0 and the card has a known schema version (1.0 or 2.0). *)
Theorem downgrade_uec_succeeds (c : Value) (target_version : string) (keep_rules : bool) :
  (exists r, downgrade_uec c target_version keep_rules = Ok r) <->
  target_version = SCHEMA_VERSION /\
  exists v, schema_version c = Some v /\ known_version v = true.
Proof.
  unfold downgrade_uec. split.
  - intros [r E].
    destruct (String.eqb_spec target_version SCHEMA_VERSION) as [->|]; [|discriminate E].
    split; [reflexivity|]. simpl negb in E. cbv beta iota in E.
    destruct (schema_version c) as [v|]; [|discriminate E]. exists v. split; [reflexivity|].
    unfold known_version.
    destruct (String.eqb v SCHEMA_VERSION); [reflexivity|].
    destruct (String.eqb v SCHEMA_VERSION_V2); [reflexivity|discriminate E].
  - intros [-> [v [V K]]]. rewrite String.eqb_refl. simpl negb. cbv beta iota.
    rewrite V. unfold known_version in K.
    destruct (String.eqb v SCHEMA_VERSION); [eexists; reflexivity|].
    simpl in K. rewrite K. simpl negb. cbv beta iota.
    destruct c as [| | | | |root]; try (eexists; reflexivity).
    repeat match goal with
           | |- context [match ?x with Some _ => _ | None => _ end] => destruct x
           | |- context [match ?x with Null => _ | _ => _ end] => destruct x
           | |- context [let (_, _) := ?x in _] => destruct x
           end; eexists; reflexivity.
Qed.

(** Instances of the properties above at concrete inputs. *)

Lemma validate_uec_accepts_witness :
  ok (validate_uec example_v1_card false) = true /\
  exists root schema version kind payload,
    example_v1_card = Object root /\
    map_get "schema" root = Some (Object schema) /\
    map_get "name" schema = Some (Str SCHEMA_NAME) /\
    map_get "version" schema = Some (Str version) /\
    (version = SCHEMA_VERSION \/ version = SCHEMA_VERSION_V2) /\
    map_get "kind" root = Some (Str kind) /\
    (kind = "character" \/ kind = "persona") /\
    map_get "payload" root = Some (Object payload).
Proof.
  split; [vm_compute; reflexivity|].
  apply (validate_uec_accepts example_v1_card false). vm_compute. reflexivity.
Defined.

Lemma is_uec_character_xor_persona_witness :
  is_uec example_v1_card false = true /\
  xorb (is_character_uec example_v1_card false) (is_persona_uec example_v1_card false) = true.
Proof.
  split; [vm_compute; reflexivity|].
  apply (is_uec_character_xor_persona example_v1_card false). vm_compute. reflexivity.
Defined.

Lemma upgrade_uec_versions_witness :
  exists c', upgrade_uec example_v1_card "2.0" = Ok c' /\
    known_version "2.0" = true /\
    (exists v, schema_version example_v1_card = Some v /\ known_version v = true) /\
    schema_version c' = Some "2.0".
Proof.
  destruct (upgrade_uec example_v1_card "2.0") as [c'|e] eqn:E;
    [|vm_compute in E; discriminate E].
  exists c'. split; [reflexivity|].
  apply (upgrade_uec_versions example_v1_card c' "2.0"); [|exact E].
  simpl; repeat (split || constructor).
Defined.

Lemma upgrade_uec_same_version_witness :
  upgrade_uec example_v1_card "1.0" = Ok (normalize_uec example_v1_card).
Proof.
  apply (upgrade_uec_same_version example_v1_card "1.0"); vm_compute; reflexivity.
Defined.

Lemma system_prompt_id_roundtrip_witness :
  exists m', normalize_system_prompt (Object [("systemPrompt", Str "abc")]) true = Object m' /\
    _system_prompt_is_id (Object m') = true /\
    map_get "promptTemplateId" (convert_payload m') = Some (Str "abc") /\
    map_get "systemPrompt" (convert_payload m') = Some Null.
Proof.
  apply (system_prompt_id_roundtrip [("systemPrompt", Str "abc")] "abc"); reflexivity.
Defined.

Lemma create_uec_schema_witness :
  exists sv, get "schema" (Object [("app_specific_settings", Object []); ("extensions", Object []);
      ("kind", Str "persona"); ("meta", Object []); ("payload", Object []);
      ("schema", Object [("name", Str "Custom"); ("version", Str "1.0")])]) = Some (Object sv) /\
    map_get "name" sv = Some (Str "Custom") /\
    map_get "version" sv = Some (Str SCHEMA_VERSION).
Proof.
  apply (create_uec_schema "persona" (Object []) (Some [("name", Str "Custom")]) None None None false).
  - intros s E. injection E as <-. repeat constructor.
  - vm_compute. reflexivity.
Defined.

Lemma create_v2_schema_version_witness :
  (exists card,
     create_character_uec_v2 [] (Some [("name", Str "Custom")]) None None None = Some card /\
     schema_version card = Some SCHEMA_VERSION_V2) /\
  (exists card,
     create_persona_uec_v2 [] (Some [("name", Str "Custom")]) None None None = Some card /\
     schema_version card = Some SCHEMA_VERSION_V2).
Proof.
  apply (create_v2_schema_version [] (Some [("name", Str "Custom")]) None None None).
  intros s E. injection E as <-. repeat constructor.
Defined.

Lemma rewrite_walk_mapper_agree_witness :
  rewrite_walk (fun r => ar_value r) example_asset_doc "$"
  = rewrite_walk (fun r => if String.eqb (ar_path r) "$.nowhere" then Null else ar_value r)
      example_asset_doc "$".
Proof.
  apply rewrite_walk_mapper_agree. intros r H. vm_compute in H.
  repeat destruct H as [<-|H]; try reflexivity. destruct H.
Defined.

Lemma downgrade_payload_drops_v2_fields_witness :
  StronglySorted key_lt example_v2_payload /\
  let (q, w) := downgrade_payload example_v2_payload false in
  StronglySorted key_lt q /\ map_get "scene" q = None /\ map_get "promptTemplateId" q = None /\
  Forall (fun f => map_get f q = None) removed_fields.
Proof.
  assert (S : StronglySorted key_lt example_v2_payload) by (vm_compute; repeat constructor).
  split; [exact S|].
  destruct (downgrade_payload example_v2_payload false) as [q w] eqn:E.
  exact (downgrade_payload_drops_v2_fields example_v2_payload false q w S E).
Defined.
